(** * 2key-ratchet: the symmetric ratchets and the EC public key wrapper

    A shallow embedding of [src/classes/sym_ratchet.ts] (the classes
    [SymmetricRatchet], [SendingRatchet], [ReceivingRatchet]) and of
    [src/classes/crypto/public_key.ts] (the class [ECPublicKey]), followed by
    the properties of these classes.

    Modelling conventions.
    - An [ArrayBuffer] is a [list byte].
    - A JavaScript [number] holding a counter is a [Z]: the counters of the
      ratchets are integers, and the exact integer range of a double
      (below 2^53) is never left by the runs considered here.  Fractional
      numbers and NaN are outside the model.
    - An object is a record; a method takes the object first ([this]) and
      returns the new object next to its result when it assigns a field.
    - An [async] function that can reject returns a [Result]: the rejection
      reason on the left, the resolved value on the right.
    - The modules [Secret], [crypto.subtle] and [Convert] are not part of the
      two source files.  They are interfaces here (type classes), with the
      signatures of their call sites: a key derivation, an import, an
      encryption or a digest is a deterministic function, while a decryption
      and the import or export of a curve point can reject. *)

From Stdlib Require Import ZArith List String Ascii Bool Lia Permutation.
From Stdlib.Strings Require Import Byte.
Import ListNotations.

Local Open Scope Z_scope.
Local Open Scope list_scope.

(** ** JavaScript values shared by the two files *)

Definition Bytes := list byte.

(** [new Error(message)], a [TypeError], or the reason of a rejected
    WebCrypto promise. *)
Inductive Exn : Type :=
| Error (message : string)
| TypeError (message : string)
| DOMException (name : string).

Definition Result (A : Type) : Type := (Exn + A)%type.

Definition resolve {A} (a : A) : Result A := inr a.
Definition throw {A} (e : Exn) : Result A := inl e.

Definition bind {A B} (m : Result A) (f : A -> Result B) : Result B :=
  match m with
  | inl e => inl e
  | inr a => f a
  end.

Notation "x <- 'await' m ;; k" := (bind m (fun x => k))
  (at level 61, m at next level, right associativity).

(** [KeyType] of WebCrypto: ["public" | "private" | "secret"]. *)
Inductive KeyType : Type := public | private | secret.

Definition KeyType_eqb (a b : KeyType) : bool :=
  match a, b with
  | public, public | private, private | secret, secret => true
  | _, _ => false
  end.

(** A [CryptoKey]: the fields the code reads ([algorithm.name], [type]) and
    the key material, which only the provider can look at. *)
Record CryptoKey : Type := mkCryptoKey {
  algorithm_name : string;
  type : KeyType;
  material : Bytes
}.

(** [a[i]] on an array: [undefined] (here [None]) outside the array. *)
Definition index {A} (a : list A) (i : Z) : option A :=
  if i <? 0 then None else nth_error a (Z.to_nat i).

(** [buf.slice(b, e)] and [buf.slice(b)] on an [ArrayBuffer], for the
    non-negative bounds the code uses; the bounds are clamped to the length. *)
Definition slice (buf : Bytes) (b e : nat) : Bytes := firstn (e - b) (skipn b buf).
Definition slice_from (buf : Bytes) (b : nat) : Bytes := skipn b buf.

(** ** The primitive provider: [Secret] *)

Module Secret.

Class Provider : Type := {
  sign : CryptoKey -> Bytes -> Bytes;
  importHMAC : Bytes -> CryptoKey;
  importAES : Bytes -> CryptoKey;
  HKDF : Bytes -> nat -> option CryptoKey -> Bytes -> list Bytes;
  encrypt : CryptoKey -> Bytes -> Bytes -> Bytes;
  decrypt : CryptoKey -> Bytes -> Bytes -> Result Bytes;
  digest : string -> Bytes -> Bytes
}.

End Secret.

(** ** [sym_ratchet.ts] *)

(** Constants for the KDF_CK function. *)
Definition CIPHER_KEY_KDF_INPUT : Bytes := [x01].
Definition ROOT_KEY_KDF_INPUT : Bytes := [x02].

(** Encrypt/Decrypt result for Symmetric ratchets. *)
Record CipherMessage : Type := mkCipherMessage {
  cipherText : Bytes;
  hmacKey : CryptoKey
}.

Module SymmetricKDFResult.
Record t : Type := mk {
  rootKey : CryptoKey;
  cipher : Bytes
}.
End SymmetricKDFResult.

Module SymmetricRatchet.

Record t : Type := mk {
  counter : Z;
  rootKey : CryptoKey
}.

(** [constructor(rootKey)], with the field initialiser [counter = 0]. *)
Definition new (rootKey : CryptoKey) : t :=
  {| counter := 0; rootKey := rootKey |}.

Section Methods.
Context {P : Secret.Provider}.

(** calculates new keys by rootKey KDF_CK(ck) *)
Definition calculateKey (rootKey : CryptoKey) : SymmetricKDFResult.t :=
  let cipherKeyBytes := Secret.sign rootKey CIPHER_KEY_KDF_INPUT in
  let nextRootKeyBytes := Secret.sign rootKey ROOT_KEY_KDF_INPUT in
  {| SymmetricKDFResult.rootKey := Secret.importHMAC nextRootKeyBytes;
     SymmetricKDFResult.cipher := cipherKeyBytes |}.

(** Move to next step of ratchet. *)
Definition click (this : t) : Bytes * t :=
  let rootKey := rootKey this in
  let res := calculateKey rootKey in
  let this := {| counter := counter this; rootKey := SymmetricKDFResult.rootKey res |} in
  let this := {| counter := counter this + 1; rootKey := SymmetricRatchet.rootKey this |} in
  (SymmetricKDFResult.cipher res, this).

End Methods.

End SymmetricRatchet.

(** The three derived values both [encrypt] and [decrypt] compute from a
    cipher key, in the order of their lines. *)
Record MessageKeys : Type := mkMessageKeys {
  aesKey : CryptoKey;
  mk_hmacKey : CryptoKey;
  iv : Bytes
}.

Module SendingRatchet.

(** [class SendingRatchet extends SymmetricRatchet]: no field of its own. *)
Definition t : Type := SymmetricRatchet.t.

Definition new (rootKey : CryptoKey) : t := SymmetricRatchet.new rootKey.

Section Methods.
Context {P : Secret.Provider}.

(** The constant [INFO_MESSAGE_KEYS] of [./const], whose value is not in the
    source files. *)
Variable INFO_MESSAGE_KEYS : Bytes.

(** Lines 108-111 of [encrypt]: "calculate keys".  An array read past the
    end gives [undefined]: [undefined.slice] is a [TypeError], and an
    import of [undefined] has no key material to import and rejects. *)
Definition encrypt_keys (cipherKey : Bytes) : Result MessageKeys :=
  let keys := Secret.HKDF cipherKey 3 None INFO_MESSAGE_KEYS in
  match index keys 0, index keys 1, index keys 2 with
  | Some k0, Some k1, Some k2 =>
      let aesKey := Secret.importAES k0 in
      let hmacKey := Secret.importHMAC k1 in
      let iv := slice k2 0 16 in
      resolve {| aesKey := aesKey; mk_hmacKey := hmacKey; iv := iv |}
  | _, _, _ => throw (TypeError "undefined")
  end.

(** Encrypts message. *)
Definition encrypt (this : t) (message : Bytes) : Result CipherMessage * t :=
  let '(cipherKey, this) := SymmetricRatchet.click this in
  (ks <- await encrypt_keys cipherKey ;;
   let cipherText := Secret.encrypt (aesKey ks) message (iv ks) in
   resolve {| hmacKey := mk_hmacKey ks; cipherText := cipherText |},
   this).

End Methods.

End SendingRatchet.

Module ReceivingRatchet.

(** [class ReceivingRatchet extends SymmetricRatchet] with the field
    [keys: ArrayBuffer[] = []]. *)
Record t : Type := mk {
  base : SymmetricRatchet.t;
  keys : list Bytes
}.

Definition counter (this : t) : Z := SymmetricRatchet.counter (base this).
Definition rootKey (this : t) : CryptoKey := SymmetricRatchet.rootKey (base this).

Definition new (rootKey : CryptoKey) : t :=
  {| base := SymmetricRatchet.new rootKey; keys := [] |}.

Section Methods.
Context {P : Secret.Provider}.
Variable INFO_MESSAGE_KEYS : Bytes.

(** The inherited [click], on the inherited fields. *)
Definition click (this : t) : Bytes * t :=
  let '(cipher, b) := SymmetricRatchet.click (base this) in
  (cipher, {| base := b; keys := keys this |}).

(** [this.keys.push(cipherKey)] *)
Definition push (this : t) (cipherKey : Bytes) : t :=
  {| base := base this; keys := keys this ++ [cipherKey] |}.

(** The body of the [while] loop of [getKey]. *)
Definition getKey_body (this : t) : t :=
  let '(cipherKey, this) := click this in
  push this cipherKey.

(** The [while] loop of [getKey], run for at most [fuel] iterations. *)
Fixpoint getKey_while (fuel : nat) (this : t) (counter : Z) : t :=
  match fuel with
  | O => this
  | S fuel =>
      if ReceivingRatchet.counter this <=? counter then
        getKey_while fuel (getKey_body this) counter
      else this
  end.

(** The number of iterations after which the guard
    [this.counter <= counter] is false. *)
Definition getKey_fuel (this : t) (counter : Z) : nat :=
  Z.to_nat (counter + 1 - ReceivingRatchet.counter this).

Definition getKey (this : t) (counter : Z) : option Bytes * t :=
  let this := getKey_while (getKey_fuel this counter) this counter in
  let key := index (keys this) counter in
  (key, this).

(** Lines 130-133 of [decrypt]: "calculate keys". *)
Definition decrypt_keys (cipherKey : Bytes) : Result MessageKeys :=
  let keys := Secret.HKDF cipherKey 3 None INFO_MESSAGE_KEYS in
  match index keys 0, index keys 1, index keys 2 with
  | Some k0, Some k1, Some k2 =>
      let aesKey := Secret.importAES k0 in
      let hmacKey := Secret.importHMAC k1 in
      let iv := slice k2 0 16 in
      resolve {| aesKey := aesKey; mk_hmacKey := hmacKey; iv := iv |}
  | _, _, _ => throw (TypeError "undefined")
  end.

(** [decrypt].  When [getKey] gives [undefined] (no cache entry at
    [counter]) the provider is handed no key material and the call
    rejects. *)
Definition decrypt (this : t) (message : Bytes) (counter : Z)
  : Result CipherMessage * t :=
  let '(cipherKey, this) := getKey this counter in
  (match cipherKey with
   | None => throw (TypeError "undefined")
   | Some cipherKey =>
       ks <- await decrypt_keys cipherKey ;;
       cipherText <- await Secret.decrypt (aesKey ks) message (iv ks) ;;
       resolve {| hmacKey := mk_hmacKey ks; cipherText := cipherText |}
   end,
   this).

End Methods.

End ReceivingRatchet.

(** ** What [public_key.ts] imports *)

(** [s.toUpperCase()], on the ASCII letters; other characters are kept. *)
Definition toUpperCase_char (c : ascii) : ascii :=
  let n := nat_of_ascii c in
  if (97 <=? n)%nat && (n <=? 122)%nat then ascii_of_nat (n - 32) else c.

Fixpoint toUpperCase (s : string) : string :=
  match s with
  | EmptyString => EmptyString
  | String c s => String (toUpperCase_char c) (toUpperCase s)
  end.

Module Convert.

(** The text encodings; their tables are not in the source files. *)
Class Codec : Type := {
  FromBase64Url : string -> Bytes;
  ToBase64Url : Bytes -> string;
  ToHex : Bytes -> string
}.

(** Modelled from the spec: [Convert.ToBinary] of utils is not among the
    source files; the spec has [create] concatenate the two coordinates into
    one raw byte buffer, so a binary string has one character per byte. *)
Definition ToBinary (buf : Bytes) : string := string_of_list_byte buf.

(** Modelled from the spec: [Convert.FromBinary] of utils is not among the
    source files; it reads a binary string back, one byte per character. *)
Definition FromBinary (s : string) : Bytes := list_byte_of_string s.

End Convert.

Module utils.

(** Modelled from the spec: [isEqual] of utils is not among the source
    files; the spec has it decide whether two serializations are
    byte-identical: the same length and the same byte at every offset. *)
Fixpoint isEqual (buffer1 buffer2 : Bytes) : bool :=
  match buffer1, buffer2 with
  | [], [] => true
  | b1 :: buffer1, b2 :: buffer2 => Byte.eqb b1 b2 && isEqual buffer1 buffer2
  | _, _ => false
  end.

End utils.

(** A [JsonWebKey] of an EC public key. *)
Record JsonWebKey : Type := mkJsonWebKey {
  kty : string;
  crv : string;
  x : string;
  y : string
}.

Record EcKeyImportParams : Type := mkEcKeyImportParams {
  name : string;
  namedCurve : string
}.

(** The type [ECKeyType = "ECDH" | "ECDSA"]. *)
Inductive ECKeyType : Type := ECDH | ECDSA.

Definition ECKeyType_string (type : ECKeyType) : string :=
  match type with
  | ECDH => "ECDH"
  | ECDSA => "ECDSA"
  end.

Module subtle.

(** [crypto.subtle.exportKey] and [crypto.subtle.importKey]. *)
Class Engine : Type := {
  exportKey : string -> CryptoKey -> Result JsonWebKey;
  importKey : string -> JsonWebKey -> EcKeyImportParams -> bool -> list string
              -> Result CryptoKey
}.

End subtle.

(** ** [public_key.ts] *)

Module ECPublicKey.

(** Implementation of EC public key. *)
Record t : Type := mk {
  id : string;
  key : CryptoKey;
  serialized : Bytes
}.

(** A value of type [any], as far as [isEqual] tells values apart. *)
Inductive any : Type :=
| undefined
| null
| boolean (b : bool)
| number (n : Z)
| text (s : string)
| buffer (b : Bytes)
| cryptoKey (k : CryptoKey)
| instance (o : t).

(** [other] in a condition: the falsy values are [undefined], [null],
    [false], [0] and the empty string. *)
Definition truthy (other : any) : bool :=
  match other with
  | undefined | null => false
  | boolean b => b
  | number n => negb (n =? 0)
  | text s => negb (String.eqb s EmptyString)
  | buffer _ | cryptoKey _ | instance _ => true
  end.

(** [other instanceof ECPublicKey], with the instance when it is one. *)
Definition instanceof (other : any) : option t :=
  match other with
  | instance o => Some o
  | _ => None
  end.

Section Methods.
Context {P : Secret.Provider} {C : Convert.Codec} {E : subtle.Engine}.

(** The constant [Curve.NAMED_CURVE], whose value is not in the source
    files. *)
Variable NAMED_CURVE : string.

(** Returns key in raw format. *)
Definition serialize (this : t) : Bytes := serialized this.

(** Returns SHA-1 digest of key. *)
Definition thumbprint (this : t) : string :=
  let bytes := serialize this in
  let thumbprint := Secret.digest "SHA-1" bytes in
  Convert.ToHex thumbprint.

(** Creates new instance of ECPublicKey from CryptoKey.  The fields of
    [res] that are not assigned yet hold the empty string and buffer. *)
Definition create (publicKey : CryptoKey) : Result t :=
  let res := {| id := EmptyString; key := publicKey; serialized := [] |} in
  let algName := toUpperCase (algorithm_name publicKey) in
  if negb (String.eqb algName "ECDH" || String.eqb algName "ECDSA") then
    throw (Error "Error: Unsupported asymmetric key algorithm.")
  else if negb (KeyType_eqb (type publicKey) public) then
    throw (Error "Error: Expected key type to be public but it was not.")
  else
    let res := {| id := id res; key := publicKey; serialized := serialized res |} in
    jwk <- await subtle.exportKey "jwk" publicKey ;;
    let x := Convert.FromBase64Url (x jwk) in
    let y := Convert.FromBase64Url (y jwk) in
    let xy := (Convert.ToBinary x ++ Convert.ToBinary y)%string in
    let res := {| id := id res; key := key res; serialized := Convert.FromBinary xy |} in
    let res := {| id := thumbprint res; key := key res; serialized := serialized res |} in
    resolve res.

(** The [jwk] and the [usage] that [importKey] builds. *)
Definition importKey_jwk (bytes : Bytes) : JsonWebKey :=
  let x := Convert.ToBase64Url (slice bytes 0 32) in
  let y := Convert.ToBase64Url (slice_from bytes 32) in
  {| kty := "EC"; crv := NAMED_CURVE; x := x; y := y |}.

Definition importKey_usage (type : ECKeyType) : list string :=
  match type with
  | ECDSA => ["verify"%string]
  | ECDH => ["deriveBits"%string]
  end.

(** Creates ECPublicKey from raw data. *)
Definition importKey (bytes : Bytes) (type : ECKeyType) : Result t :=
  let jwk := importKey_jwk bytes in
  let usage := importKey_usage type in
  key <- await subtle.importKey "jwk" jwk
           {| name := ECKeyType_string type; namedCurve := NAMED_CURVE |}
           true usage ;;
  res <- await create key ;;
  resolve res.

(** Returns [true] if current is equal to given parameter. *)
Definition isEqual (this : t) (other : any) : bool :=
  match truthy other, instanceof other with
  | true, Some other => utils.isEqual (serialized this) (serialized other)
  | _, _ => false
  end.

End Methods.

End ECPublicKey.

(** ** Runs of a chain, and the key chain of a root key *)

Section Runs.
Context {P : Secret.Provider}.
Variable INFO_MESSAGE_KEYS : Bytes.

(** The root key a chain seeded with [r] holds after [n] steps, and the
    cipher key its next step hands out. *)
Fixpoint rootKeyAt (r : CryptoKey) (n : nat) : CryptoKey :=
  match n with
  | O => r
  | S n => SymmetricKDFResult.rootKey (SymmetricRatchet.calculateKey (rootKeyAt r n))
  end.

Definition cipherKeyAt (r : CryptoKey) (n : nat) : Bytes :=
  SymmetricKDFResult.cipher (SymmetricRatchet.calculateKey (rootKeyAt r n)).

(** What position [c] of the chain seeded with [r] holds: nothing before
    position 0. *)
Definition keyAt (r : CryptoKey) (c : Z) : option Bytes :=
  if c <? 0 then None else Some (cipherKeyAt r (Z.to_nat c)).

(** A sending chain after the calls [encrypt(m)] for [m] in [messages]. *)
Definition encrypt_all (this : SendingRatchet.t) (messages : list Bytes)
  : SendingRatchet.t :=
  fold_left (fun this m => snd (SendingRatchet.encrypt INFO_MESSAGE_KEYS this m))
            messages this.

(** The calls a receiving chain takes. *)
Inductive call : Type :=
| call_getKey (counter : Z)
| call_decrypt (message : Bytes) (counter : Z).

Definition exec (this : ReceivingRatchet.t) (c : call) : ReceivingRatchet.t :=
  match c with
  | call_getKey counter => snd (ReceivingRatchet.getKey this counter)
  | call_decrypt message counter =>
      snd (ReceivingRatchet.decrypt INFO_MESSAGE_KEYS this message counter)
  end.

Definition exec_all (this : ReceivingRatchet.t) (calls : list call)
  : ReceivingRatchet.t :=
  fold_left exec calls this.

(** The calls [getKey(c)] for [c] in [counters], in this order: every
    requested counter with the key returned for it, and the final chain. *)
Fixpoint getKey_all (this : ReceivingRatchet.t) (counters : list Z)
  : list (Z * option Bytes) * ReceivingRatchet.t :=
  match counters with
  | [] => ([], this)
  | c :: counters =>
      let '(key, this) := ReceivingRatchet.getKey this c in
      let '(rest, this) := getKey_all this counters in
      ((c, key) :: rest, this)
  end.

(** What a chain seeded with [r] looks like from outside: the counter is
    not negative, the root key is the one of that position and the cache
    holds the cipher keys of all earlier positions. *)
Definition seeded (r : CryptoKey) (this : ReceivingRatchet.t) : Prop :=
  0 <= ReceivingRatchet.counter this /\
  ReceivingRatchet.rootKey this =
    rootKeyAt r (Z.to_nat (ReceivingRatchet.counter this)) /\
  ReceivingRatchet.keys this =
    map (cipherKeyAt r) (seq 0 (Z.to_nat (ReceivingRatchet.counter this))).

(** The key expansion in the words of the specification: HKDF with three
    outputs, no salt and the message-keys label; the AES key from output 0,
    the HMAC key from output 1, the IV the first 16 bytes of output 2. *)
Definition spec_message_keys (cipherKey : Bytes) : Result MessageKeys :=
  match Secret.HKDF cipherKey 3 None INFO_MESSAGE_KEYS with
  | out0 :: out1 :: out2 :: _ =>
      resolve {| aesKey := Secret.importAES out0;
                 mk_hmacKey := Secret.importHMAC out1;
                 iv := firstn 16 out2 |}
  | _ => throw (TypeError "undefined")
  end.

End Runs.

(** The two errors of [create], under the names the specification gives
    them. *)
Definition UnsupportedAlgorithmError : Exn :=
  Error "Error: Unsupported asymmetric key algorithm.".
Definition InvalidKeyTypeError : Exn :=
  Error "Error: Expected key type to be public but it was not.".

(** The algorithm test of [create]. *)
Definition supportedAlgorithm (publicKey : CryptoKey) : bool :=
  let algName := toUpperCase (algorithm_name publicKey) in
  String.eqb algName "ECDH" || String.eqb algName "ECDSA".

(** ** A small provider, to run the classes on concrete inputs *)

Module Sample.

Definition hmac (b : Bytes) : CryptoKey :=
  {| algorithm_name := "HMAC"; type := secret; material := b |}.
Definition aes (b : Bytes) : CryptoKey :=
  {| algorithm_name := "AES-CBC"; type := secret; material := b |}.

(** [strip p l]: [l] without its prefix [p], when it starts with [p]. *)
Fixpoint strip (p l : Bytes) : option Bytes :=
  match p, l with
  | [], _ => Some l
  | a :: p, b :: l => if Byte.eqb a b then strip p l else None
  | _ :: _, [] => None
  end.

Definition seal (k : CryptoKey) (plain iv : Bytes) : Bytes :=
  iv ++ material k ++ plain.

Definition unseal (k : CryptoKey) (sealed iv : Bytes) : Result Bytes :=
  match strip (iv ++ material k) sealed with
  | Some plain => resolve plain
  | None => throw (DOMException "OperationError")
  end.

#[export] Instance provider : Secret.Provider := {|
  Secret.sign k data := data ++ material k;
  Secret.importHMAC := hmac;
  Secret.importAES := aes;
  Secret.HKDF ikm n salt info := map (fun i => repeat x2a i ++ info ++ ikm) (seq 1 n);
  Secret.encrypt := seal;
  Secret.decrypt := unseal;
  Secret.digest alg data := rev data
|}.

#[export] Instance codec : Convert.Codec := {|
  Convert.FromBase64Url := list_byte_of_string;
  Convert.ToBase64Url := string_of_list_byte;
  Convert.ToHex := string_of_list_byte
|}.

(** The usages WebCrypto lets a public key be imported with: none for a
    key-agreement key, at most ["verify"] for a signature key. *)
Definition publicUsages (alg : EcKeyImportParams) (usages : list string) : bool :=
  if String.eqb (toUpperCase (name alg)) "ECDH" then
    match usages with
    | [] => true
    | _ :: _ => false
    end
  else forallb (String.eqb "verify") usages.

(** A point is accepted with usages a public key may have, when both
    coordinates have 32 bytes. *)
Definition importPoint (format : string) (jwk : JsonWebKey) (alg : EcKeyImportParams)
           (extractable : bool) (usages : list string) : Result CryptoKey :=
  let px := list_byte_of_string (x jwk) in
  let py := list_byte_of_string (y jwk) in
  if negb (publicUsages alg usages) then throw (DOMException "SyntaxError")
  else if (List.length px =? 32)%nat && (List.length py =? 32)%nat then
    resolve {| algorithm_name := name alg; type := public; material := px ++ py |}
  else throw (DOMException "DataError").

Definition exportPoint (format : string) (k : CryptoKey) : Result JsonWebKey :=
  if (List.length (material k) =? 64)%nat then
    resolve {| kty := "EC"; crv := "P-256";
               x := string_of_list_byte (firstn 32 (material k));
               y := string_of_list_byte (skipn 32 (material k)) |}
  else throw (DOMException "InvalidAccessError").

#[export] Instance engine : subtle.Engine := {|
  subtle.exportKey := exportPoint;
  subtle.importKey := importPoint
|}.

Definition root : CryptoKey := hmac [x10; x20].
Definition info : Bytes := [x49; x6e; x66; x6f].
Definition hello : Bytes := [x68; x65; x6c; x6c; x6f].

(** The third message of a sending chain seeded with [root]. *)
Definition third : Result CipherMessage :=
  fst (SendingRatchet.encrypt info
         (encrypt_all info (SendingRatchet.new root) [[x00]; [x01]]) hello).
Definition sealed : Bytes :=
  match third with inr out => cipherText out | inl _ => [] end.
Definition sealedKey : CryptoKey :=
  match third with inr out => hmacKey out | inl _ => root end.

Definition point : Bytes := repeat x07 32 ++ repeat x09 32.

Definition rsaPrivate : CryptoKey :=
  {| algorithm_name := "RSA-OAEP"; type := private; material := [] |}.
Definition ecdhPrivate : CryptoKey :=
  {| algorithm_name := "ecdh"; type := private; material := point |}.
Definition ecdhPublic : CryptoKey :=
  {| algorithm_name := "ECDH"; type := public; material := point |}.
Definition ecdsaPublic : CryptoKey :=
  {| algorithm_name := "ECDSA"; type := public; material := point |}.

(** The identity [create] makes of [ecdhPublic]. *)
Definition identity : ECPublicKey.t :=
  {| ECPublicKey.id := Convert.ToHex (Secret.digest "SHA-1" point);
     ECPublicKey.key := ecdhPublic;
     ECPublicKey.serialized := point |}.

End Sample.

(** ** Sequences of calls: the counters they ask for *)

Definition call_counter (c : call) : Z :=
  match c with
  | call_getKey counter => counter
  | call_decrypt _ counter => counter
  end.

(** One past the highest counter asked for, starting from [start]. *)
Definition position (start : Z) (calls : list call) : Z :=
  fold_left (fun n c => Z.max n (call_counter c + 1)) calls start.

(** ** The ratchets over a provider whose promises can reject

    The same methods of [sym_ratchet.ts], line by line, with every [await] on
    the provider able to reject: a rejection leaves the method at that line,
    with the fields as they were assigned so far.  The provider takes the
    values as the call sites pass them: an array read can hand [undefined]
    (here [None]) to an import or to [HKDF]. *)

Module AsyncSecret.

Class Provider : Type := {
  sign : CryptoKey -> Bytes -> Result Bytes;
  importHMAC : option Bytes -> Result CryptoKey;
  importAES : option Bytes -> Result CryptoKey;
  HKDF : option Bytes -> nat -> option CryptoKey -> Bytes -> Result (list Bytes);
  encrypt : CryptoKey -> Bytes -> Bytes -> Result Bytes;
  decrypt : CryptoKey -> Bytes -> Bytes -> Result Bytes
}.

(** A provider of [Secret.Provider] as one of these: it resolves on every
    buffer and rejects when it is handed [undefined]. *)
Definition lift (P : Secret.Provider) : Provider := {|
  sign k data := resolve (Secret.sign k data);
  importHMAC b := match b with
                  | Some b => resolve (Secret.importHMAC b)
                  | None => throw (TypeError "undefined")
                  end;
  importAES b := match b with
                 | Some b => resolve (Secret.importAES b)
                 | None => throw (TypeError "undefined")
                 end;
  HKDF ikm n salt info := match ikm with
                          | Some ikm => resolve (Secret.HKDF ikm n salt info)
                          | None => throw (TypeError "undefined")
                          end;
  encrypt k plain iv := resolve (Secret.encrypt k plain iv);
  decrypt := Secret.decrypt
|}.

End AsyncSecret.

Module Async.

Section Methods.
Context {P : AsyncSecret.Provider}.
Variable INFO_MESSAGE_KEYS : Bytes.

(** [SymmetricRatchet.calculateKey] *)
Definition calculateKey (rootKey : CryptoKey) : Result SymmetricKDFResult.t :=
  cipherKeyBytes <- await AsyncSecret.sign rootKey CIPHER_KEY_KDF_INPUT ;;
  nextRootKeyBytes <- await AsyncSecret.sign rootKey ROOT_KEY_KDF_INPUT ;;
  imported <- await AsyncSecret.importHMAC (Some nextRootKeyBytes) ;;
  resolve {| SymmetricKDFResult.rootKey := imported;
             SymmetricKDFResult.cipher := cipherKeyBytes |}.

(** [SymmetricRatchet.click]: both fields are assigned after the last
    [await]. *)
Definition click (this : SymmetricRatchet.t) : Result Bytes * SymmetricRatchet.t :=
  let rootKey := SymmetricRatchet.rootKey this in
  match calculateKey rootKey with
  | inl e => (throw e, this)
  | inr res =>
      let this := {| SymmetricRatchet.counter := SymmetricRatchet.counter this;
                     SymmetricRatchet.rootKey := SymmetricKDFResult.rootKey res |} in
      let this := {| SymmetricRatchet.counter := SymmetricRatchet.counter this + 1;
                     SymmetricRatchet.rootKey := SymmetricRatchet.rootKey this |} in
      (resolve (SymmetricKDFResult.cipher res), this)
  end.

(** The lines "calculate keys" of [encrypt] and of [decrypt], up to the IV. *)
Definition message_keys (cipherKey : option Bytes) : Result MessageKeys :=
  keys <- await AsyncSecret.HKDF cipherKey 3 None INFO_MESSAGE_KEYS ;;
  aesKey <- await AsyncSecret.importAES (index keys 0) ;;
  hmacKey <- await AsyncSecret.importHMAC (index keys 1) ;;
  match index keys 2 with
  | None => throw (TypeError "undefined")
  | Some k2 =>
      let iv := slice k2 0 16 in
      resolve {| aesKey := aesKey; mk_hmacKey := hmacKey; iv := iv |}
  end.

(** [SendingRatchet.encrypt] *)
Definition encrypt (this : SendingRatchet.t) (message : Bytes)
  : Result CipherMessage * SendingRatchet.t :=
  match click this with
  | (inl e, this) => (throw e, this)
  | (inr cipherKey, this) =>
      (ks <- await message_keys (Some cipherKey) ;;
       cipherText <- await AsyncSecret.encrypt (aesKey ks) message (iv ks) ;;
       resolve {| hmacKey := mk_hmacKey ks; cipherText := cipherText |},
       this)
  end.

(** The inherited [click] on a receiving chain. *)
Definition click_receiving (this : ReceivingRatchet.t)
  : Result Bytes * ReceivingRatchet.t :=
  let '(cipher, b) := click (ReceivingRatchet.base this) in
  (cipher, {| ReceivingRatchet.base := b;
              ReceivingRatchet.keys := ReceivingRatchet.keys this |}).

(** The [while] loop of [getKey], run for at most [fuel] iterations; a
    rejected [click] ends it. *)
Fixpoint getKey_while (fuel : nat) (this : ReceivingRatchet.t) (counter : Z)
  : Result unit * ReceivingRatchet.t :=
  match fuel with
  | O => (resolve tt, this)
  | S fuel =>
      if ReceivingRatchet.counter this <=? counter then
        match click_receiving this with
        | (inl e, this) => (throw e, this)
        | (inr cipherKey, this) =>
            getKey_while fuel (ReceivingRatchet.push this cipherKey) counter
        end
      else (resolve tt, this)
  end.

(** [ReceivingRatchet.getKey] *)
Definition getKey (this : ReceivingRatchet.t) (counter : Z)
  : Result (option Bytes) * ReceivingRatchet.t :=
  match getKey_while (ReceivingRatchet.getKey_fuel this counter) this counter with
  | (inl e, this) => (throw e, this)
  | (inr _, this) =>
      let key := index (ReceivingRatchet.keys this) counter in
      (resolve key, this)
  end.

(** [ReceivingRatchet.decrypt] *)
Definition decrypt (this : ReceivingRatchet.t) (message : Bytes) (counter : Z)
  : Result CipherMessage * ReceivingRatchet.t :=
  match getKey this counter with
  | (inl e, this) => (throw e, this)
  | (inr cipherKey, this) =>
      (ks <- await message_keys cipherKey ;;
       cipherText <- await AsyncSecret.decrypt (aesKey ks) message (iv ks) ;;
       resolve {| hmacKey := mk_hmacKey ks; cipherText := cipherText |},
       this)
  end.

(** The calls of a receiving chain, one after the other, rejected or not. *)
Definition exec (this : ReceivingRatchet.t) (c : call) : ReceivingRatchet.t :=
  match c with
  | call_getKey counter => snd (getKey this counter)
  | call_decrypt message counter => snd (decrypt this message counter)
  end.

Definition exec_all (this : ReceivingRatchet.t) (calls : list call)
  : ReceivingRatchet.t :=
  fold_left exec calls this.

End Methods.

End Async.

(** A provider whose [sign] rejects keys of four bytes and more: a chain
    seeded with [Sample.root] makes two steps and rejects the third. *)
Module Flaky.

Definition sign (k : CryptoKey) (data : Bytes) : Result Bytes :=
  if (List.length (material k) <? 4)%nat then resolve (data ++ material k)
  else throw (DOMException "OperationError").

#[export] Instance provider : AsyncSecret.Provider := {|
  AsyncSecret.sign := sign;
  AsyncSecret.importHMAC := @AsyncSecret.importHMAC (AsyncSecret.lift Sample.provider);
  AsyncSecret.importAES := @AsyncSecret.importAES (AsyncSecret.lift Sample.provider);
  AsyncSecret.HKDF := @AsyncSecret.HKDF (AsyncSecret.lift Sample.provider);
  AsyncSecret.encrypt := @AsyncSecret.encrypt (AsyncSecret.lift Sample.provider);
  AsyncSecret.decrypt := @AsyncSecret.decrypt (AsyncSecret.lift Sample.provider)
|}.

End Flaky.

(** The sample provider with an HKDF that hands out two outputs whatever the
    number asked for. *)
Module Short.

#[export] Instance provider : AsyncSecret.Provider := {|
  AsyncSecret.sign := @AsyncSecret.sign (AsyncSecret.lift Sample.provider);
  AsyncSecret.importHMAC := @AsyncSecret.importHMAC (AsyncSecret.lift Sample.provider);
  AsyncSecret.importAES := @AsyncSecret.importAES (AsyncSecret.lift Sample.provider);
  AsyncSecret.HKDF ikm n salt info :=
    @AsyncSecret.HKDF (AsyncSecret.lift Sample.provider) ikm 2 salt info;
  AsyncSecret.encrypt := @AsyncSecret.encrypt (AsyncSecret.lift Sample.provider);
  AsyncSecret.decrypt := @AsyncSecret.decrypt (AsyncSecret.lift Sample.provider)
|}.

End Short.

(** More sample values: a chain that the flaky provider has stopped, a second
    identity of the sample point, and a public key that cannot be exported. *)
Module More.

Definition stopped : ReceivingRatchet.t :=
  snd (@Async.getKey Flaky.provider (ReceivingRatchet.new Sample.root) 5).

Definition twoKeys : ReceivingRatchet.t :=
  snd (@ReceivingRatchet.getKey Sample.provider (ReceivingRatchet.new Sample.root) 1).

Definition signatureIdentity : ECPublicKey.t :=
  {| ECPublicKey.id := ECPublicKey.id Sample.identity;
     ECPublicKey.key := Sample.ecdsaPublic;
     ECPublicKey.serialized := Sample.point |}.

Definition sealedPublic : CryptoKey :=
  {| algorithm_name := "ECDH"; type := public; material := [] |}.

End More.

(** * Properties *)

Lemma bind_resolve {A B} (a : A) (f : A -> Result B) :
  (x <- await resolve a ;; f x) = f a.
Proof. reflexivity. Qed.

Lemma bind_throw {A B} (e : Exn) (f : A -> Result B) :
  (x <- await throw e ;; f x) = throw e.
Proof. reflexivity. Qed.

(** ** The engine and the key chain *)

Section Chain.
Context {P : Secret.Provider}.

Lemma click_unfold (this : SymmetricRatchet.t) :
  SymmetricRatchet.click this =
  (cipherKeyAt (SymmetricRatchet.rootKey this) 0,
   {| SymmetricRatchet.counter := SymmetricRatchet.counter this + 1;
      SymmetricRatchet.rootKey := rootKeyAt (SymmetricRatchet.rootKey this) 1 |}).
Proof. reflexivity. Qed.

Lemma rootKeyAt_plus (r : CryptoKey) (a b : nat) :
  rootKeyAt (rootKeyAt r a) b = rootKeyAt r (a + b).
Proof.
  induction b as [|b IH]; simpl.
  - now rewrite Nat.add_0_r.
  - rewrite IH. now rewrite Nat.add_succ_r.
Qed.

Lemma cipherKeyAt_plus (r : CryptoKey) (a b : nat) :
  cipherKeyAt (rootKeyAt r a) b = cipherKeyAt r (a + b).
Proof. unfold cipherKeyAt. now rewrite rootKeyAt_plus. Qed.

Lemma getKey_body_unfold (this : ReceivingRatchet.t) :
  ReceivingRatchet.getKey_body this =
  {| ReceivingRatchet.base :=
       {| SymmetricRatchet.counter := ReceivingRatchet.counter this + 1;
          SymmetricRatchet.rootKey := rootKeyAt (ReceivingRatchet.rootKey this) 1 |};
     ReceivingRatchet.keys :=
       ReceivingRatchet.keys this ++ [cipherKeyAt (ReceivingRatchet.rootKey this) 0] |}.
Proof. reflexivity. Qed.

(** [j] rounds of the loop body: [j] steps of the chain, [j] keys appended. *)
Lemma getKey_body_iter (j : nat) (this : ReceivingRatchet.t) :
  Nat.iter j ReceivingRatchet.getKey_body this =
  {| ReceivingRatchet.base :=
       {| SymmetricRatchet.counter := ReceivingRatchet.counter this + Z.of_nat j;
          SymmetricRatchet.rootKey := rootKeyAt (ReceivingRatchet.rootKey this) j |};
     ReceivingRatchet.keys :=
       ReceivingRatchet.keys this
       ++ map (cipherKeyAt (ReceivingRatchet.rootKey this)) (seq 0 j) |}.
Proof.
  induction j as [|j IH].
  - destruct this as [[n r] ks]; cbn.
    rewrite Z.add_0_r, app_nil_r. reflexivity.
  - rewrite Nat.iter_succ, IH, getKey_body_unfold.
    unfold ReceivingRatchet.counter, ReceivingRatchet.rootKey; cbn [ReceivingRatchet.base
      ReceivingRatchet.keys SymmetricRatchet.counter SymmetricRatchet.rootKey].
    rewrite seq_S, map_app, <- app_assoc. cbn [map Nat.add].
    do 2 f_equal. lia.
Qed.

(** The loop stops by its guard: any fuel from [getKey_fuel] on gives the
    state after exactly [getKey_fuel] rounds. *)
Lemma getKey_while_enough (counter : Z) (fuel : nat) :
  forall this : ReceivingRatchet.t,
    (ReceivingRatchet.getKey_fuel this counter <= fuel)%nat ->
    ReceivingRatchet.getKey_while fuel this counter =
    Nat.iter (ReceivingRatchet.getKey_fuel this counter)
             ReceivingRatchet.getKey_body this.
Proof.
  unfold ReceivingRatchet.getKey_fuel.
  induction fuel as [|fuel IH]; intros this Hfuel.
  - replace (Z.to_nat _) with 0%nat by lia. reflexivity.
  - cbn [ReceivingRatchet.getKey_while].
    destruct (Z.leb_spec (ReceivingRatchet.counter this) counter) as [Hle|Hgt].
    + rewrite IH.
      * rewrite <- Nat.iter_succ_r. f_equal.
        rewrite getKey_body_unfold. unfold ReceivingRatchet.counter at 1. cbn.
        lia.
      * rewrite getKey_body_unfold. unfold ReceivingRatchet.counter at 1. cbn.
        lia.
    + replace (Z.to_nat _) with 0%nat by lia. reflexivity.
Qed.

Lemma getKey_state (this : ReceivingRatchet.t) (counter : Z) :
  snd (ReceivingRatchet.getKey this counter) =
  Nat.iter (ReceivingRatchet.getKey_fuel this counter)
           ReceivingRatchet.getKey_body this.
Proof.
  unfold ReceivingRatchet.getKey. cbn [snd].
  now apply getKey_while_enough.
Qed.

Lemma getKey_result (this : ReceivingRatchet.t) (counter : Z) :
  fst (ReceivingRatchet.getKey this counter) =
  index (ReceivingRatchet.keys (snd (ReceivingRatchet.getKey this counter))) counter.
Proof. reflexivity. Qed.

End Chain.

(** ** The receiving chain: states, calls and the cache *)

Section Receiving.
Context {P : Secret.Provider}.
Variable INFO_MESSAGE_KEYS : Bytes.

Lemma getKey_counter (this : ReceivingRatchet.t) (counter : Z) :
  ReceivingRatchet.counter (snd (ReceivingRatchet.getKey this counter)) =
  ReceivingRatchet.counter this
  + Z.of_nat (ReceivingRatchet.getKey_fuel this counter).
Proof. rewrite getKey_state, getKey_body_iter. reflexivity. Qed.

Lemma getKey_counter_max (this : ReceivingRatchet.t) (counter : Z) :
  ReceivingRatchet.counter (snd (ReceivingRatchet.getKey this counter)) =
  Z.max (ReceivingRatchet.counter this) (counter + 1).
Proof. rewrite getKey_counter. unfold ReceivingRatchet.getKey_fuel. lia. Qed.

Lemma getKey_keys (this : ReceivingRatchet.t) (counter : Z) :
  ReceivingRatchet.keys (snd (ReceivingRatchet.getKey this counter)) =
  ReceivingRatchet.keys this
  ++ map (cipherKeyAt (ReceivingRatchet.rootKey this))
         (seq 0 (ReceivingRatchet.getKey_fuel this counter)).
Proof. rewrite getKey_state, getKey_body_iter. reflexivity. Qed.

Lemma getKey_rootKey (this : ReceivingRatchet.t) (counter : Z) :
  ReceivingRatchet.rootKey (snd (ReceivingRatchet.getKey this counter)) =
  rootKeyAt (ReceivingRatchet.rootKey this)
            (ReceivingRatchet.getKey_fuel this counter).
Proof. rewrite getKey_state, getKey_body_iter. reflexivity. Qed.

(** [decrypt] changes the chain the way its [getKey] does. *)
Lemma decrypt_state (this : ReceivingRatchet.t) (message : Bytes) (counter : Z) :
  snd (ReceivingRatchet.decrypt INFO_MESSAGE_KEYS this message counter) =
  snd (ReceivingRatchet.getKey this counter).
Proof.
  unfold ReceivingRatchet.decrypt.
  destruct (ReceivingRatchet.getKey this counter) as [k s]. reflexivity.
Qed.

Lemma exec_state (this : ReceivingRatchet.t) (c : call) :
  exists counter : Z,
    exec INFO_MESSAGE_KEYS this c = snd (ReceivingRatchet.getKey this counter).
Proof.
  destruct c as [counter|message counter]; exists counter; cbn [exec].
  - reflexivity.
  - apply decrypt_state.
Qed.

Lemma map_seq_from {A} (f : nat -> A) (j : nat) :
  forall n, map f (seq n j) = map (fun i => f (n + i)%nat) (seq 0 j).
Proof.
  induction j as [|j IH]; intros n; cbn [seq map].
  - reflexivity.
  - rewrite Nat.add_0_r. f_equal.
    rewrite IH, <- (seq_shift j 0), map_map.
    apply map_ext. intros i. f_equal. lia.
Qed.

(** Reading an appended cache at or after the old length. *)
Lemma index_app_map (ks : list Bytes) (f : nat -> Bytes) (j : nat) (c : Z) :
  Z.of_nat (List.length ks) <= c < Z.of_nat (List.length ks) + Z.of_nat j ->
  index (ks ++ map f (seq 0 j)) c =
  Some (f (Z.to_nat (c - Z.of_nat (List.length ks)))).
Proof.
  intros Hc. unfold index.
  destruct (Z.ltb_spec c 0) as [Hneg|_]; [lia|].
  rewrite nth_error_app2 by lia.
  replace (Z.to_nat c - List.length ks)%nat
    with (Z.to_nat (c - Z.of_nat (List.length ks))) by lia.
  rewrite nth_error_map, nth_error_seq.
  destruct (Nat.ltb_spec (Z.to_nat (c - Z.of_nat (List.length ks))) j); [|lia].
  reflexivity.
Qed.

Lemma seeded_new (r : CryptoKey) : seeded r (ReceivingRatchet.new r).
Proof. repeat split. cbn. lia. Qed.

Lemma seeded_getKey (r : CryptoKey) (this : ReceivingRatchet.t) (counter : Z) :
  seeded r this -> seeded r (snd (ReceivingRatchet.getKey this counter)).
Proof.
  intros (Hn & Hroot & Hkeys).
  unfold seeded.
  rewrite getKey_counter, getKey_rootKey, getKey_keys, Hroot, Hkeys.
  set (n := ReceivingRatchet.counter this) in *.
  set (j := ReceivingRatchet.getKey_fuel this counter).
  replace (Z.to_nat (n + Z.of_nat j)) with (Z.to_nat n + j)%nat by lia.
  repeat split.
  - lia.
  - apply rootKeyAt_plus.
  - rewrite seq_app, map_app. f_equal. cbn [Nat.add].
    rewrite (map_seq_from (cipherKeyAt r) j (Z.to_nat n)).
    apply map_ext. intros i.
    now rewrite cipherKeyAt_plus.
Qed.

Lemma seeded_exec_all (r : CryptoKey) (calls : list call) :
  forall this, seeded r this -> seeded r (exec_all INFO_MESSAGE_KEYS this calls).
Proof.
  induction calls as [|c calls IH]; intros this Hs; cbn.
  - exact Hs.
  - apply IH. destruct (exec_state this c) as [counter ->].
    now apply seeded_getKey.
Qed.

Lemma seeded_index (r : CryptoKey) (this : ReceivingRatchet.t) (c : Z) :
  seeded r this -> c < ReceivingRatchet.counter this ->
  index (ReceivingRatchet.keys this) c = keyAt r c.
Proof.
  intros (Hn & _ & Hkeys) Hc. unfold index, keyAt. rewrite Hkeys.
  destruct (Z.ltb_spec c 0) as [Hneg|Hpos]; [reflexivity|].
  rewrite nth_error_map, nth_error_seq.
  destruct (Nat.ltb_spec (Z.to_nat c) (Z.to_nat (ReceivingRatchet.counter this)));
    [reflexivity|lia].
Qed.

(** On a seeded chain, [getKey(c)] returns the key of position [c]. *)
Lemma seeded_getKey_result (r : CryptoKey) (this : ReceivingRatchet.t) (c : Z) :
  seeded r this -> fst (ReceivingRatchet.getKey this c) = keyAt r c.
Proof.
  intros Hs. rewrite getKey_result.
  apply seeded_index.
  - now apply seeded_getKey.
  - rewrite getKey_counter_max. lia.
Qed.

End Receiving.

(** ** The sending chain *)

Section Sending.
Context {P : Secret.Provider}.
Variable INFO_MESSAGE_KEYS : Bytes.

Lemma encrypt_state (this : SendingRatchet.t) (message : Bytes) :
  snd (SendingRatchet.encrypt INFO_MESSAGE_KEYS this message) =
  snd (SymmetricRatchet.click this).
Proof. reflexivity. Qed.

Lemma encrypt_all_state (messages : list Bytes) :
  forall this : SendingRatchet.t,
    encrypt_all INFO_MESSAGE_KEYS this messages =
    {| SymmetricRatchet.counter :=
         SymmetricRatchet.counter this + Z.of_nat (List.length messages);
       SymmetricRatchet.rootKey :=
         rootKeyAt (SymmetricRatchet.rootKey this) (List.length messages) |}.
Proof.
  induction messages as [|m messages IH]; intros [n r].
  - cbn. now rewrite Z.add_0_r.
  - change (encrypt_all INFO_MESSAGE_KEYS ?s (m :: messages))
      with (encrypt_all INFO_MESSAGE_KEYS
              (snd (SendingRatchet.encrypt INFO_MESSAGE_KEYS s m)) messages).
    rewrite IH, encrypt_state, click_unfold.
    cbn [snd SymmetricRatchet.counter SymmetricRatchet.rootKey List.length].
    f_equal.
    + lia.
    + rewrite rootKeyAt_plus. reflexivity.
Qed.

(** The two expansions are the same function of the cipher key. *)
Lemma message_keys_agree (cipherKey : Bytes) :
  ReceivingRatchet.decrypt_keys INFO_MESSAGE_KEYS cipherKey =
  SendingRatchet.encrypt_keys INFO_MESSAGE_KEYS cipherKey.
Proof. reflexivity. Qed.

(** What a successful [encrypt] returned, in terms of the expansion. *)
Lemma encrypt_resolved (this : SendingRatchet.t) (message : Bytes)
      (out : CipherMessage) :
  fst (SendingRatchet.encrypt INFO_MESSAGE_KEYS this message) = resolve out ->
  exists ks : MessageKeys,
    SendingRatchet.encrypt_keys INFO_MESSAGE_KEYS
      (cipherKeyAt (SymmetricRatchet.rootKey this) 0) = resolve ks /\
    out = {| cipherText := Secret.encrypt (aesKey ks) message (iv ks);
             hmacKey := mk_hmacKey ks |}.
Proof.
  unfold SendingRatchet.encrypt. rewrite click_unfold. cbn [fst].
  destruct (SendingRatchet.encrypt_keys _ _) as [e|ks]; cbn [bind].
  - discriminate.
  - intros H. exists ks. split; [reflexivity|].
    unfold resolve in H. injection H as <-. reflexivity.
Qed.

End Sending.

(** ** Sequences of [getKey] calls *)

Section Orders.
Context {P : Secret.Provider}.

Lemma getKey_all_cons (this : ReceivingRatchet.t) (c : Z) (counters : list Z) :
  getKey_all this (c :: counters) =
  ((c, fst (ReceivingRatchet.getKey this c))
     :: fst (getKey_all (snd (ReceivingRatchet.getKey this c)) counters),
   snd (getKey_all (snd (ReceivingRatchet.getKey this c)) counters)).
Proof.
  cbn [getKey_all].
  destruct (ReceivingRatchet.getKey this c) as [k s]. cbn [fst snd].
  destruct (getKey_all s counters). reflexivity.
Qed.

Lemma seeded_getKey_all (r : CryptoKey) (counters : list Z) :
  forall this, seeded r this -> seeded r (snd (getKey_all this counters)).
Proof.
  induction counters as [|c counters IH]; intros this Hs.
  - exact Hs.
  - rewrite getKey_all_cons. cbn [snd]. apply IH. now apply seeded_getKey.
Qed.

Lemma getKey_all_keys (r : CryptoKey) (counters : list Z) :
  forall this, seeded r this ->
  forall c k, In (c, k) (fst (getKey_all this counters)) -> k = keyAt r c.
Proof.
  induction counters as [|c0 counters IH]; intros this Hs c k Hin.
  - destruct Hin.
  - rewrite getKey_all_cons in Hin. cbn [fst] in Hin.
    destruct Hin as [Heq|Hin].
    + injection Heq as <- <-. now apply seeded_getKey_result.
    + apply (IH (snd (ReceivingRatchet.getKey this c0))); [|exact Hin].
      now apply seeded_getKey.
Qed.

(** The position a sequence of requests leaves the chain at. *)
Lemma getKey_all_counter (counters : list Z) :
  forall this,
    ReceivingRatchet.counter (snd (getKey_all this counters)) =
    fold_left (fun n c => Z.max n (c + 1)) counters (ReceivingRatchet.counter this).
Proof.
  induction counters as [|c counters IH]; intros this.
  - reflexivity.
  - rewrite getKey_all_cons. cbn [snd fold_left].
    rewrite IH, getKey_counter_max. reflexivity.
Qed.

Lemma fold_max_permutation (l1 l2 : list Z) :
  Permutation l1 l2 ->
  forall n, fold_left (fun n c => Z.max n (c + 1)) l1 n =
            fold_left (fun n c => Z.max n (c + 1)) l2 n.
Proof.
  induction 1 as [|a l1 l2 _ IH|a b l|l1 l2 l3 _ IH12 _ IH23]; intros n; cbn [fold_left].
  - reflexivity.
  - apply IH.
  - f_equal. lia.
  - now rewrite IH12.
Qed.

(** A seeded chain is determined by its seed and its position. *)
Lemma seeded_same_counter (r : CryptoKey) (s1 s2 : ReceivingRatchet.t) :
  seeded r s1 -> seeded r s2 ->
  ReceivingRatchet.counter s1 = ReceivingRatchet.counter s2 -> s1 = s2.
Proof.
  destruct s1 as [[n1 r1] k1], s2 as [[n2 r2] k2].
  unfold seeded, ReceivingRatchet.counter, ReceivingRatchet.rootKey; cbn.
  intros (_ & -> & ->) (_ & -> & ->) ->. reflexivity.
Qed.

End Orders.

(** ** The sample provider *)

Lemma strip_app (p l : Bytes) : Sample.strip p (p ++ l) = Some l.
Proof.
  induction p as [|a p IH]; cbn.
  - reflexivity.
  - rewrite (byte_dec_lb (eq_refl a)). exact IH.
Qed.

Lemma unseal_seal (k : CryptoKey) (plain iv : Bytes) :
  Sample.unseal k (Sample.seal k plain iv) iv = resolve plain.
Proof.
  unfold Sample.unseal, Sample.seal.
  now rewrite app_assoc, strip_app.
Qed.

(** ** The claims on the ratchets *)

Section RatchetClaims.
Context {P : Secret.Provider}.
Variable INFO_MESSAGE_KEYS : Bytes.

(** C2. One call to [click] on the engine state (rootKey [r], counter [n])
    returns [sign(r, 0x01)] as the cipher key, replaces the root key with
    [importHMAC(sign(r, 0x02))] and sets the counter to [n + 1]; on a
    receiving chain the cache, the only other field, is kept. *)
Theorem click_derives_and_advances (r : CryptoKey) (n : Z) (cache : list Bytes) :
  SymmetricRatchet.click {| SymmetricRatchet.counter := n;
                            SymmetricRatchet.rootKey := r |} =
    (Secret.sign r [x01],
     {| SymmetricRatchet.counter := n + 1;
        SymmetricRatchet.rootKey := Secret.importHMAC (Secret.sign r [x02]) |})
  /\
  ReceivingRatchet.click
    {| ReceivingRatchet.base := {| SymmetricRatchet.counter := n;
                                   SymmetricRatchet.rootKey := r |};
       ReceivingRatchet.keys := cache |} =
    (Secret.sign r [x01],
     {| ReceivingRatchet.base :=
          {| SymmetricRatchet.counter := n + 1;
             SymmetricRatchet.rootKey := Secret.importHMAC (Secret.sign r [x02]) |};
        ReceivingRatchet.keys := cache |}).
Proof. split; reflexivity. Qed.

(** C3. On a receiving chain whose counter [n] is the length of its cache,
    [getKey(c)] runs the loop body (one advance, one key appended) once per
    iteration while the counter is at most [c], stops with the counter
    above [c], and returns the cache entry at index [c]; when [n <= c] the
    final counter is [c + 1], the cache has [c + 1] entries and the
    returned key is the cipher key of step [c], the one produced [c - n]
    steps after the current root key. *)
Theorem getKey_advances_and_returns (this : ReceivingRatchet.t) (c : Z) :
  Z.of_nat (List.length (ReceivingRatchet.keys this)) = ReceivingRatchet.counter this ->
  let rounds := ReceivingRatchet.getKey_fuel this c in
  let key := fst (ReceivingRatchet.getKey this c) in
  let this' := snd (ReceivingRatchet.getKey this c) in
  this' = Nat.iter rounds ReceivingRatchet.getKey_body this /\
  (forall i, (i < rounds)%nat ->
     ReceivingRatchet.counter (Nat.iter i ReceivingRatchet.getKey_body this) <= c) /\
  c < ReceivingRatchet.counter this' /\
  ReceivingRatchet.keys this' =
    ReceivingRatchet.keys this
    ++ map (cipherKeyAt (ReceivingRatchet.rootKey this)) (seq 0 rounds) /\
  key = index (ReceivingRatchet.keys this') c /\
  (ReceivingRatchet.counter this <= c ->
     ReceivingRatchet.counter this' = c + 1 /\
     Z.of_nat (List.length (ReceivingRatchet.keys this')) = c + 1 /\
     key = Some (cipherKeyAt (ReceivingRatchet.rootKey this)
                             (Z.to_nat (c - ReceivingRatchet.counter this)))).
Proof.
  intros Hlen rounds key this'. subst key this'.
  repeat split.
  - apply getKey_state.
  - intros i Hi. rewrite getKey_body_iter.
    unfold ReceivingRatchet.counter at 1. cbn.
    subst rounds. unfold ReceivingRatchet.getKey_fuel in Hi. lia.
  - rewrite getKey_counter_max. lia.
  - apply getKey_keys.
  - rewrite getKey_counter_max. lia.
  - rewrite getKey_keys, length_app, length_map, length_seq.
    fold rounds. subst rounds. unfold ReceivingRatchet.getKey_fuel. lia.
  - rewrite getKey_result, getKey_keys. fold rounds.
    rewrite index_app_map.
    + now rewrite Hlen.
    + subst rounds. unfold ReceivingRatchet.getKey_fuel. lia.
Qed.

(** C10. On a receiving chain with counter [n], a [getKey] or [decrypt]
    call for a counter [c < n] leaves root key, counter and cache as they
    were and works with the cache entry at index [c]: the loop of [getKey]
    stops at its first test, whatever the number of rounds allowed, so no
    advance is made. *)
Theorem getKey_below_counter_frame (this : ReceivingRatchet.t)
        (message : Bytes) (c : Z) :
  c < ReceivingRatchet.counter this ->
  ReceivingRatchet.getKey this c = (index (ReceivingRatchet.keys this) c, this) /\
  (forall fuel, ReceivingRatchet.getKey_while fuel this c = this) /\
  snd (ReceivingRatchet.decrypt INFO_MESSAGE_KEYS this message c) = this /\
  fst (ReceivingRatchet.decrypt INFO_MESSAGE_KEYS this message c) =
    match index (ReceivingRatchet.keys this) c with
    | None => throw (TypeError "undefined")
    | Some cipherKey =>
        ks <- await ReceivingRatchet.decrypt_keys INFO_MESSAGE_KEYS cipherKey ;;
        cipherText <- await Secret.decrypt (aesKey ks) message (iv ks) ;;
        resolve {| hmacKey := mk_hmacKey ks; cipherText := cipherText |}
    end.
Proof.
  intros Hc.
  assert (Hloop : forall fuel, ReceivingRatchet.getKey_while fuel this c = this).
  { intros [|fuel]; cbn [ReceivingRatchet.getKey_while]; [reflexivity|].
    destruct (Z.leb_spec (ReceivingRatchet.counter this) c); [lia|reflexivity]. }
  assert (Hget : ReceivingRatchet.getKey this c =
                 (index (ReceivingRatchet.keys this) c, this)).
  { unfold ReceivingRatchet.getKey. now rewrite Hloop. }
  repeat split; try assumption.
  - unfold ReceivingRatchet.decrypt. now rewrite Hget.
  - unfold ReceivingRatchet.decrypt. now rewrite Hget.
Qed.

(** C5. The counter of a chain starts at 0; [click] and [encrypt] add
    exactly 1 to it; [getKey] and [decrypt] add 1 per round of the loop
    (one advance each) and never lower it; so the counter of a sending
    chain is the number of its encrypts and the counter of a receiving
    chain is never negative. *)
Theorem counter_forward_only :
  (forall r, SymmetricRatchet.counter (SendingRatchet.new r) = 0 /\
             ReceivingRatchet.counter (ReceivingRatchet.new r) = 0) /\
  (forall s, SymmetricRatchet.counter (snd (SymmetricRatchet.click s)) =
             SymmetricRatchet.counter s + 1) /\
  (forall s m, SymmetricRatchet.counter
                 (snd (SendingRatchet.encrypt INFO_MESSAGE_KEYS s m)) =
               SymmetricRatchet.counter s + 1) /\
  (forall s, ReceivingRatchet.counter (ReceivingRatchet.getKey_body s) =
             ReceivingRatchet.counter s + 1) /\
  (forall s c,
     snd (ReceivingRatchet.getKey s c) =
       Nat.iter (ReceivingRatchet.getKey_fuel s c) ReceivingRatchet.getKey_body s /\
     ReceivingRatchet.counter (snd (ReceivingRatchet.getKey s c)) =
       ReceivingRatchet.counter s + Z.of_nat (ReceivingRatchet.getKey_fuel s c) /\
     ReceivingRatchet.counter s <=
       ReceivingRatchet.counter (snd (ReceivingRatchet.getKey s c))) /\
  (forall s m c,
     snd (ReceivingRatchet.decrypt INFO_MESSAGE_KEYS s m c) =
     snd (ReceivingRatchet.getKey s c)) /\
  (forall r ms,
     SymmetricRatchet.counter
       (encrypt_all INFO_MESSAGE_KEYS (SendingRatchet.new r) ms) =
     Z.of_nat (List.length ms)) /\
  (forall r calls,
     0 <= ReceivingRatchet.counter
            (exec_all INFO_MESSAGE_KEYS (ReceivingRatchet.new r) calls)).
Proof.
  repeat apply conj.
  - intros r. split; reflexivity.
  - intros s. reflexivity.
  - intros s m. reflexivity.
  - intros s. reflexivity.
  - intros s c. repeat apply conj.
    + apply getKey_state.
    + apply getKey_counter.
    + rewrite getKey_counter. lia.
  - intros s m c. apply decrypt_state.
  - intros r ms. rewrite encrypt_all_state. reflexivity.
  - intros r calls.
    apply (seeded_exec_all INFO_MESSAGE_KEYS r calls). apply seeded_new.
Qed.

(** C1. Two chains are seeded with the same root key [r]; the sending chain
    has encrypted the [k] messages [ms] and its next [encrypt(m)] returns
    the cipher-text [c] (with the HMAC key [hk]).  If the provider's
    [decrypt] inverts its [encrypt] for the same key and IV, then
    [decrypt(c, k)] on the receiving chain, whatever calls it has taken
    before, returns the cipher-text [m] (with the same HMAC key). *)
Theorem sender_receiver_agreement (r : CryptoKey) (ms : list Bytes)
        (m c : Bytes) (hk : CryptoKey) (calls : list call) :
  (forall key plain iv,
     Secret.decrypt key (Secret.encrypt key plain iv) iv = resolve plain) ->
  fst (SendingRatchet.encrypt INFO_MESSAGE_KEYS
         (encrypt_all INFO_MESSAGE_KEYS (SendingRatchet.new r) ms) m) =
    resolve {| cipherText := c; hmacKey := hk |} ->
  fst (ReceivingRatchet.decrypt INFO_MESSAGE_KEYS
         (exec_all INFO_MESSAGE_KEYS (ReceivingRatchet.new r) calls)
         c (Z.of_nat (List.length ms))) =
    resolve {| cipherText := m; hmacKey := hk |}.
Proof.
  intros Hinv Henc.
  apply encrypt_resolved in Henc. destruct Henc as (ks & Hks & Hout).
  rewrite encrypt_all_state in Hks.
  cbn [SymmetricRatchet.rootKey SendingRatchet.new SymmetricRatchet.new] in Hks.
  rewrite cipherKeyAt_plus, Nat.add_0_r in Hks.
  injection Hout as -> ->.
  pose proof (seeded_getKey_result r _ (Z.of_nat (List.length ms))
                (seeded_exec_all INFO_MESSAGE_KEYS r calls _ (seeded_new r))) as Hkey.
  unfold keyAt in Hkey.
  destruct (Z.ltb_spec (Z.of_nat (List.length ms)) 0) as [Hneg|_]; [lia|].
  rewrite Nat2Z.id in Hkey.
  unfold ReceivingRatchet.decrypt.
  destruct (ReceivingRatchet.getKey _ _) as [key this']. cbn [fst] in *.
  subst key. rewrite message_keys_agree, Hks, bind_resolve, Hinv.
  reflexivity.
Qed.

(** C4. On fresh chains seeded with the same root key, two sequences of
    [getKey] requests that are permutations of each other return the same
    key for every index, namely the key of that position of the seed's
    chain, and leave the same chain behind; the same key is returned after
    any earlier [getKey] and [decrypt] calls. *)
Theorem getKey_order_independent (r : CryptoKey) (cs1 cs2 : list Z) :
  Permutation cs1 cs2 ->
  let run1 := getKey_all (ReceivingRatchet.new r) cs1 in
  let run2 := getKey_all (ReceivingRatchet.new r) cs2 in
  (forall c k1 k2, In (c, k1) (fst run1) -> In (c, k2) (fst run2) -> k1 = k2) /\
  (forall c k, In (c, k) (fst run1) -> k = keyAt r c) /\
  snd run1 = snd run2 /\
  (forall calls c,
     fst (ReceivingRatchet.getKey
            (exec_all INFO_MESSAGE_KEYS (ReceivingRatchet.new r) calls) c) =
     keyAt r c).
Proof.
  intros Hperm run1 run2. subst run1 run2.
  pose proof (seeded_new r) as Hnew.
  repeat split.
  - intros c k1 k2 H1 H2.
    rewrite (getKey_all_keys r cs1 _ Hnew c k1 H1).
    rewrite (getKey_all_keys r cs2 _ Hnew c k2 H2). reflexivity.
  - intros c k H1. exact (getKey_all_keys r cs1 _ Hnew c k H1).
  - apply (seeded_same_counter r).
    + now apply seeded_getKey_all.
    + now apply seeded_getKey_all.
    + rewrite !getKey_all_counter. now apply fold_max_permutation.
  - intros calls c. apply seeded_getKey_result.
    now apply seeded_exec_all.
Qed.

End RatchetClaims.

(** ** The public key wrapper *)

Lemma isEqual_true_iff (buffer1 buffer2 : Bytes) :
  utils.isEqual buffer1 buffer2 = true <-> buffer1 = buffer2.
Proof.
  revert buffer2.
  induction buffer1 as [|b1 buffer1 IH]; intros [|b2 buffer2]; cbn.
  - tauto.
  - split; discriminate.
  - split; discriminate.
  - rewrite andb_true_iff, IH. split.
    + intros [Hb ->]. now rewrite (byte_dec_bl _ _ Hb).
    + intros H. injection H as -> ->. split; [now apply byte_dec_lb|reflexivity].
Qed.

Lemma isEqual_false_iff (buffer1 buffer2 : Bytes) :
  utils.isEqual buffer1 buffer2 = false <-> buffer1 <> buffer2.
Proof.
  rewrite <- isEqual_true_iff.
  destruct (utils.isEqual buffer1 buffer2); split; congruence.
Qed.

(** A binary string built from two buffers reads back as their
    concatenation. *)
Lemma FromBinary_ToBinary_append (b1 b2 : Bytes) :
  Convert.FromBinary (Convert.ToBinary b1 ++ Convert.ToBinary b2)%string = b1 ++ b2.
Proof.
  unfold Convert.FromBinary, Convert.ToBinary.
  induction b1 as [|a b1 IH].
  - apply list_byte_of_string_of_list_byte.
  - change (string_of_list_byte (a :: b1))
      with (String (ascii_of_byte a) (string_of_list_byte b1)).
    cbn [append].
    change (list_byte_of_string (String ?c ?s))
      with (byte_of_ascii c :: list_byte_of_string s).
    rewrite IH, byte_of_ascii_of_byte. reflexivity.
Qed.

Lemma app_same_length {A} (a c b d : list A) :
  List.length a = List.length c -> a ++ b = c ++ d -> a = c /\ b = d.
Proof.
  revert c. induction a as [|u a IH]; intros [|v c] Hlen Heq;
    try discriminate Hlen.
  - split; [reflexivity|exact Heq].
  - cbn in Heq. injection Heq as -> Heq. injection Hlen as Hlen.
    destruct (IH c Hlen Heq) as [-> ->]. split; reflexivity.
Qed.

Lemma toUpperCase_ECKeyType (type : ECKeyType) :
  toUpperCase (ECKeyType_string type) = ECKeyType_string type.
Proof. destruct type; reflexivity. Qed.

Lemma isEqual_not_instance (a : ECPublicKey.t) (v : ECPublicKey.any) :
  ECPublicKey.instanceof v = None -> ECPublicKey.isEqual a v = false.
Proof.
  unfold ECPublicKey.isEqual. intros ->.
  now destruct (ECPublicKey.truthy v).
Qed.

Lemma isEqual_instance (a o : ECPublicKey.t) :
  ECPublicKey.isEqual a (ECPublicKey.instance o) =
  utils.isEqual (ECPublicKey.serialized a) (ECPublicKey.serialized o).
Proof. reflexivity. Qed.

Section PublicKey.
Context {P : Secret.Provider} {C : Convert.Codec} {E : subtle.Engine}.
Variable NAMED_CURVE : string.

Lemma create_unsupported (h : CryptoKey) :
  supportedAlgorithm h = false ->
  ECPublicKey.create h = throw UnsupportedAlgorithmError.
Proof.
  unfold supportedAlgorithm, ECPublicKey.create. cbv zeta.
  intros ->. reflexivity.
Qed.

Lemma create_not_public (h : CryptoKey) :
  supportedAlgorithm h = true -> type h <> public ->
  ECPublicKey.create h = throw InvalidKeyTypeError.
Proof.
  unfold supportedAlgorithm, ECPublicKey.create. cbv zeta.
  intros -> Hty. cbn [negb].
  destruct (type h); [contradiction|reflexivity|reflexivity].
Qed.

(** What [create] resolves to, on a public key of a supported algorithm
    whose export succeeds. *)
Lemma create_resolved (h : CryptoKey) (jwk : JsonWebKey) :
  supportedAlgorithm h = true -> type h = public ->
  subtle.exportKey "jwk" h = resolve jwk ->
  exists k : ECPublicKey.t,
    ECPublicKey.create h = resolve k /\
    ECPublicKey.key k = h /\
    ECPublicKey.serialized k =
      Convert.FromBase64Url (x jwk) ++ Convert.FromBase64Url (y jwk) /\
    ECPublicKey.id k = ECPublicKey.thumbprint k.
Proof.
  unfold supportedAlgorithm, ECPublicKey.create. cbv zeta.
  intros -> -> ->. cbn [negb KeyType_eqb]. rewrite bind_resolve.
  eexists. split; [reflexivity|].
  cbn [ECPublicKey.key ECPublicKey.serialized ECPublicKey.id].
  repeat split. apply FromBinary_ToBinary_append.
Qed.

(** What a resolved [create] has stored. *)
Lemma create_serialized (h : CryptoKey) (k : ECPublicKey.t) :
  ECPublicKey.create h = resolve k ->
  exists jwk : JsonWebKey,
    subtle.exportKey "jwk" h = resolve jwk /\
    ECPublicKey.key k = h /\
    ECPublicKey.serialized k =
      Convert.FromBase64Url (x jwk) ++ Convert.FromBase64Url (y jwk).
Proof.
  intros Hk.
  destruct (supportedAlgorithm h) eqn:Hsup;
    [|rewrite (create_unsupported h Hsup) in Hk; discriminate].
  assert (Hty : type h = public).
  { destruct (type h) eqn:Hty; [reflexivity| |];
      rewrite (create_not_public h Hsup) in Hk;
      try discriminate; rewrite Hty; discriminate. }
  destruct (subtle.exportKey "jwk" h) as [e|jwk] eqn:Hexp.
  - unfold supportedAlgorithm in Hsup. unfold ECPublicKey.create in Hk.
    cbv zeta in Hk. rewrite Hsup, Hty, Hexp in Hk. discriminate.
  - destruct (create_resolved h jwk Hsup Hty Hexp) as (k' & Hk' & Hkey & Hser & _).
    rewrite Hk in Hk'. injection Hk' as <-. now exists jwk.
Qed.

(** C8. [a.isEqual(v)] is true if and only if [v] is an [ECPublicKey]
    instance with the serialization of [a], byte for byte; the native key
    handles and the identifiers of the two objects have no part in the
    answer. *)
Theorem isEqual_iff_same_serialization (a : ECPublicKey.t) (v : ECPublicKey.any) :
  (ECPublicKey.isEqual a v = true <->
   exists o : ECPublicKey.t,
     v = ECPublicKey.instance o /\
     ECPublicKey.serialized o = ECPublicKey.serialized a) /\
  (forall (o : ECPublicKey.t) (id1 id2 : string) (key1 key2 : CryptoKey),
     ECPublicKey.isEqual
       {| ECPublicKey.id := id1; ECPublicKey.key := key1;
          ECPublicKey.serialized := ECPublicKey.serialized a |}
       (ECPublicKey.instance
          {| ECPublicKey.id := id2; ECPublicKey.key := key2;
             ECPublicKey.serialized := ECPublicKey.serialized o |}) =
     ECPublicKey.isEqual a (ECPublicKey.instance o)).
Proof.
  split.
  - split.
    + destruct v as [| |b|n|s|b|k|o];
        try (rewrite isEqual_not_instance by reflexivity; discriminate).
      cbn. intros H. apply isEqual_true_iff in H. now exists o.
    + intros (o & -> & Hser). cbn. apply isEqual_true_iff. now symmetry.
  - reflexivity.
Qed.

(** C7.  [create(h)] makes its two tests in the order of the source.  It
    fails with the unsupported-algorithm error when the algorithm of [h] is
    neither ECDH nor ECDSA (the name is compared the way [create] compares
    it); a handle that passes this test fails with the key-type error when
    it is not a public key.  In both cases no identity is returned, and the
    outcome is the same whatever the provider: the rejection comes before
    the first call to it. *)
Theorem create_rejects_in_order (h : CryptoKey) :
  (supportedAlgorithm h = false ->
     ECPublicKey.create h = throw UnsupportedAlgorithmError) /\
  (supportedAlgorithm h = true -> type h <> public ->
     ECPublicKey.create h = throw InvalidKeyTypeError) /\
  (supportedAlgorithm h = false \/ type h <> public ->
     (forall k, ECPublicKey.create h <> resolve k) /\
     (forall (P' : Secret.Provider) (C' : Convert.Codec) (E' : subtle.Engine),
        @ECPublicKey.create P' C' E' h = @ECPublicKey.create P C E h)).
Proof.
  split; [apply create_unsupported|].
  split; [apply create_not_public|].
  intros Hbad.
  destruct (supportedAlgorithm h) eqn:Hsup.
  - destruct Hbad as [Hbad|Hty]; [discriminate|]. split.
    + intros k. rewrite (create_not_public h Hsup Hty). discriminate.
    + intros P' C' E'. rewrite (create_not_public h Hsup Hty).
      unfold supportedAlgorithm in Hsup. unfold ECPublicKey.create. cbv zeta.
      rewrite Hsup. cbn [negb].
      destruct (type h); [contradiction|reflexivity|reflexivity].
  - split.
    + intros k. rewrite (create_unsupported h Hsup). discriminate.
    + intros P' C' E'. rewrite (create_unsupported h Hsup).
      unfold supportedAlgorithm in Hsup. unfold ECPublicKey.create. cbv zeta.
      rewrite Hsup. reflexivity.
Qed.

Section RoundTrip.

(** The base64url decoding reads back what the encoding wrote. *)
Hypothesis base64url_round_trip :
  forall b : Bytes, Convert.FromBase64Url (Convert.ToBase64Url b) = b.

(** A key imported from a JWK has the requested algorithm (up to the
    case of its name), is a public key, and exports the coordinates it
    was imported from. *)
Hypothesis import_export_round_trip :
  forall (jwk : JsonWebKey) (alg : EcKeyImportParams) (extractable : bool)
         (usages : list string) (h : CryptoKey),
    subtle.importKey "jwk" jwk alg extractable usages = resolve h ->
    toUpperCase (algorithm_name h) = toUpperCase (name alg) /\
    type h = public /\
    exists jwk' : JsonWebKey,
      subtle.exportKey "jwk" h = resolve jwk' /\
      Convert.FromBase64Url (x jwk') = Convert.FromBase64Url (x jwk) /\
      Convert.FromBase64Url (y jwk') = Convert.FromBase64Url (y jwk).

Lemma importKey_accepted (bytes : Bytes) (kind : ECKeyType) (h : CryptoKey) :
  subtle.importKey "jwk" (ECPublicKey.importKey_jwk NAMED_CURVE bytes)
    {| name := ECKeyType_string kind; namedCurve := NAMED_CURVE |}
    true (ECPublicKey.importKey_usage kind) = resolve h ->
  exists k : ECPublicKey.t,
    ECPublicKey.importKey NAMED_CURVE bytes kind = resolve k /\
    ECPublicKey.key k = h /\
    ECPublicKey.serialized k = bytes.
Proof.
  intros Himp.
  destruct (import_export_round_trip _ _ _ _ _ Himp)
    as (Halg & Hty & jwk' & Hexp & Hx & Hy).
  assert (Hsup : supportedAlgorithm h = true).
  { unfold supportedAlgorithm. rewrite Halg. cbn [name].
    rewrite toUpperCase_ECKeyType. now destruct kind. }
  destruct (create_resolved h jwk' Hsup Hty Hexp) as (k & Hk & Hkey & Hser & _).
  exists k. unfold ECPublicKey.importKey. cbv zeta.
  rewrite Himp, bind_resolve, Hk, bind_resolve.
  repeat split; [exact Hkey|].
  rewrite Hser, Hx, Hy. unfold ECPublicKey.importKey_jwk. cbn [x y].
  rewrite !base64url_round_trip.
  unfold slice, slice_from. cbn [Nat.sub skipn].
  apply firstn_skipn.
Qed.

Lemma importKey_serialized (bytes : Bytes) (kind : ECKeyType) (k : ECPublicKey.t) :
  ECPublicKey.importKey NAMED_CURVE bytes kind = resolve k ->
  ECPublicKey.serialized k = bytes.
Proof.
  intros Hk.
  destruct (subtle.importKey "jwk" (ECPublicKey.importKey_jwk NAMED_CURVE bytes)
              {| name := ECKeyType_string kind; namedCurve := NAMED_CURVE |}
              true (ECPublicKey.importKey_usage kind)) as [e|h] eqn:Himp.
  - unfold ECPublicKey.importKey in Hk. cbv zeta in Hk.
    rewrite Himp in Hk. discriminate.
  - destruct (importKey_accepted bytes kind h Himp) as (k' & Hk' & _ & Hser).
    rewrite Hk in Hk'. injection Hk' as <-. exact Hser.
Qed.

(** The rule of WebCrypto for the import of a public key-agreement key (a
    JWK without the private field, as [importKey] builds it): any usage
    asked for makes the import reject. *)
Hypothesis public_ecdh_usages :
  forall (jwk : JsonWebKey) (alg : EcKeyImportParams) (extractable : bool)
         (usages : list string),
    toUpperCase (name alg) = "ECDH"%string -> usages <> [] ->
    exists e : Exn, subtle.importKey "jwk" jwk alg extractable usages = throw e.

(** With the usages of line 225 the import of a key-agreement key is
    rejected before [create] is reached. *)
Lemma importKey_ECDH_rejected (bytes : Bytes) :
  exists e : Exn, ECPublicKey.importKey NAMED_CURVE bytes ECDH = throw e.
Proof.
  destruct (public_ecdh_usages
              (ECPublicKey.importKey_jwk NAMED_CURVE bytes)
              {| name := ECKeyType_string ECDH; namedCurve := NAMED_CURVE |}
              true (ECPublicKey.importKey_usage ECDH)) as [e He].
  - reflexivity.
  - discriminate.
  - exists e. unfold ECPublicKey.importKey. cbv zeta. now rewrite He.
Qed.

(** C9.  On an engine that keeps the rule of WebCrypto for public
    key-agreement keys, [importKey(serialize(k), "ECDH")] rejects for every
    [k]: line 225 asks for the usage [deriveBits], which a public key cannot
    have, so for this kind no identity is produced and the round trip of
    the claim fails.  For the kind ECDSA the usage asked for is [verify]:
    when the provider accepts the coordinates of [k] (the key is valid),
    [importKey(serialize(k), "ECDSA")] produces an identity that [isEqual]
    finds equal to [k], in both directions.  Two identities imported from
    buffers that are not byte for byte the same are not equal under
    [isEqual]; and neither are two identities created from handles whose
    coordinates have the same width and differ in x or in y. *)
Theorem importKey_serialize_by_kind :
  (forall (k : ECPublicKey.t),
     (exists e : Exn,
        ECPublicKey.importKey NAMED_CURVE (ECPublicKey.serialize k) ECDH = throw e) /\
     (forall k' : ECPublicKey.t,
        ECPublicKey.importKey NAMED_CURVE (ECPublicKey.serialize k) ECDH <> resolve k')) /\
  (forall (k : ECPublicKey.t) (h : CryptoKey),
     subtle.importKey "jwk"
       (ECPublicKey.importKey_jwk NAMED_CURVE (ECPublicKey.serialize k))
       {| name := "ECDSA"; namedCurve := NAMED_CURVE |}
       true ["verify"%string] = resolve h ->
     exists k' : ECPublicKey.t,
       ECPublicKey.importKey NAMED_CURVE (ECPublicKey.serialize k) ECDSA = resolve k' /\
       ECPublicKey.isEqual k' (ECPublicKey.instance k) = true /\
       ECPublicKey.isEqual k (ECPublicKey.instance k') = true) /\
  (forall (bytes1 bytes2 : Bytes) (kind1 kind2 : ECKeyType) (k1 k2 : ECPublicKey.t),
     ECPublicKey.importKey NAMED_CURVE bytes1 kind1 = resolve k1 ->
     ECPublicKey.importKey NAMED_CURVE bytes2 kind2 = resolve k2 ->
     bytes1 <> bytes2 ->
     ECPublicKey.isEqual k1 (ECPublicKey.instance k2) = false) /\
  (forall (h1 h2 : CryptoKey) (jwk1 jwk2 : JsonWebKey) (k1 k2 : ECPublicKey.t),
     ECPublicKey.create h1 = resolve k1 ->
     ECPublicKey.create h2 = resolve k2 ->
     subtle.exportKey "jwk" h1 = resolve jwk1 ->
     subtle.exportKey "jwk" h2 = resolve jwk2 ->
     List.length (Convert.FromBase64Url (x jwk1)) =
       List.length (Convert.FromBase64Url (x jwk2)) ->
     Convert.FromBase64Url (x jwk1) <> Convert.FromBase64Url (x jwk2) \/
     Convert.FromBase64Url (y jwk1) <> Convert.FromBase64Url (y jwk2) ->
     ECPublicKey.isEqual k1 (ECPublicKey.instance k2) = false).
Proof.
  repeat apply conj.
  - intros k. destruct (importKey_ECDH_rejected (ECPublicKey.serialize k)) as [e He].
    split.
    + now exists e.
    + intros k'. rewrite He. discriminate.
  - intros k h Himp.
    destruct (importKey_accepted (ECPublicKey.serialize k) ECDSA h Himp)
      as (k' & Hk' & _ & Hser).
    exists k'. split; [exact Hk'|].
    rewrite !isEqual_instance, Hser. unfold ECPublicKey.serialize.
    split; now apply isEqual_true_iff.
  - intros bytes1 bytes2 kind1 kind2 k1 k2 H1 H2 Hneq.
    rewrite isEqual_instance.
    rewrite (importKey_serialized _ _ _ H1), (importKey_serialized _ _ _ H2).
    now apply isEqual_false_iff.
  - intros h1 h2 jwk1 jwk2 k1 k2 H1 H2 He1 He2 Hlen Hneq.
    destruct (create_serialized h1 k1 H1) as (j1 & Hj1 & _ & Hs1).
    destruct (create_serialized h2 k2 H2) as (j2 & Hj2 & _ & Hs2).
    rewrite He1 in Hj1. injection Hj1 as <-.
    rewrite He2 in Hj2. injection Hj2 as <-.
    rewrite isEqual_instance, Hs1, Hs2. apply isEqual_false_iff.
    intros Heq. destruct (app_same_length _ _ _ _ Hlen Heq) as [Hx Hy].
    destruct Hneq as [Hneq|Hneq]; contradiction.
Qed.

End RoundTrip.

End PublicKey.

(** ** The claims at the sample provider *)

Lemma sample_base64url (b : Bytes) :
  @Convert.FromBase64Url Sample.codec (@Convert.ToBase64Url Sample.codec b) = b.
Proof. apply list_byte_of_string_of_list_byte. Qed.

Lemma sample_import_export (jwk : JsonWebKey) (alg : EcKeyImportParams)
      (extractable : bool) (usages : list string) (h : CryptoKey) :
  Sample.importPoint "jwk" jwk alg extractable usages = resolve h ->
  toUpperCase (algorithm_name h) = toUpperCase (name alg) /\
  type h = public /\
  exists jwk' : JsonWebKey,
    Sample.exportPoint "jwk" h = resolve jwk' /\
    list_byte_of_string (x jwk') = list_byte_of_string (x jwk) /\
    list_byte_of_string (y jwk') = list_byte_of_string (y jwk).
Proof.
  unfold Sample.importPoint. cbv zeta.
  destruct (Sample.publicUsages alg usages); cbn [negb]; [|discriminate].
  destruct (Nat.eqb_spec (List.length (list_byte_of_string (x jwk))) 32) as [Hx|];
    [|discriminate].
  destruct (Nat.eqb_spec (List.length (list_byte_of_string (y jwk))) 32) as [Hy|];
    [|discriminate].
  cbn [andb]. intros H. unfold resolve in H. injection H as <-.
  cbn [algorithm_name type]. repeat split.
  unfold Sample.exportPoint. cbn [material].
  rewrite length_app, Hx, Hy. cbn [Nat.add Nat.eqb].
  eexists. split; [reflexivity|]. cbn [x y].
  rewrite !list_byte_of_string_of_list_byte.
  split.
  - rewrite firstn_app, Hx, Nat.sub_diag, firstn_O, app_nil_r.
    rewrite <- Hx. apply firstn_all.
  - rewrite skipn_app, Hx, Nat.sub_diag, skipn_O.
    rewrite <- Hx at 1. now rewrite skipn_all.
Qed.

Lemma sample_public_ecdh_usages (jwk : JsonWebKey) (alg : EcKeyImportParams)
      (extractable : bool) (usages : list string) :
  toUpperCase (name alg) = "ECDH"%string -> usages <> [] ->
  exists e : Exn, Sample.importPoint "jwk" jwk alg extractable usages = throw e.
Proof.
  intros Halg Hus. unfold Sample.importPoint, Sample.publicUsages. cbv zeta.
  rewrite Halg. cbn [String.eqb Ascii.eqb Bool.eqb].
  destruct usages as [|u usages]; [contradiction|].
  cbn [negb]. eexists. reflexivity.
Qed.

Section Samples.

#[local] Existing Instance Sample.provider.
#[local] Existing Instance Sample.codec.
#[local] Existing Instance Sample.engine.

(** C3 at a fresh chain and counter 2. *)
Lemma getKey_advances_and_returns_witness :
  Z.of_nat (List.length (ReceivingRatchet.keys (ReceivingRatchet.new Sample.root))) =
    ReceivingRatchet.counter (ReceivingRatchet.new Sample.root) /\
  fst (ReceivingRatchet.getKey (ReceivingRatchet.new Sample.root) 2) =
    Some (cipherKeyAt Sample.root 2) /\
  ReceivingRatchet.counter
    (snd (ReceivingRatchet.getKey (ReceivingRatchet.new Sample.root) 2)) = 3.
Proof.
  split; [reflexivity|].
  pose proof (getKey_advances_and_returns
                (ReceivingRatchet.new Sample.root) 2 eq_refl) as H.
  cbv zeta in H.
  destruct H as (_ & _ & _ & _ & _ & H).
  assert (Hle : ReceivingRatchet.counter (ReceivingRatchet.new Sample.root) <= 2)
    by (vm_compute; discriminate).
  destruct (H Hle) as (Hc & _ & Hk).
  split; [exact Hk|exact Hc].
Defined.

(** C10 at a chain that has advanced to counter 3, asked for counter 1. *)
Lemma getKey_below_counter_frame_witness :
  1 < ReceivingRatchet.counter
        (snd (ReceivingRatchet.getKey (ReceivingRatchet.new Sample.root) 2)) /\
  ReceivingRatchet.getKey
    (snd (ReceivingRatchet.getKey (ReceivingRatchet.new Sample.root) 2)) 1 =
  (Some (cipherKeyAt Sample.root 1),
   snd (ReceivingRatchet.getKey (ReceivingRatchet.new Sample.root) 2)).
Proof.
  split; [reflexivity|].
  apply (getKey_below_counter_frame Sample.info
           (snd (ReceivingRatchet.getKey (ReceivingRatchet.new Sample.root) 2))
           Sample.hello 1).
  reflexivity.
Defined.

(** C1 at the third message of the sample chain, after the receiver has
    already moved past it. *)
Lemma sender_receiver_agreement_witness :
  (forall key plain iv,
     Secret.decrypt key (Secret.encrypt key plain iv) iv = resolve plain) /\
  fst (SendingRatchet.encrypt Sample.info
         (encrypt_all Sample.info (SendingRatchet.new Sample.root) [[x00]; [x01]])
         Sample.hello) =
    resolve {| cipherText := Sample.sealed; hmacKey := Sample.sealedKey |} /\
  fst (ReceivingRatchet.decrypt Sample.info
         (exec_all Sample.info (ReceivingRatchet.new Sample.root) [call_getKey 4])
         Sample.sealed 2) =
    resolve {| cipherText := Sample.hello; hmacKey := Sample.sealedKey |}.
Proof.
  split; [exact unseal_seal|].
  split; [reflexivity|].
  apply (sender_receiver_agreement Sample.info Sample.root [[x00]; [x01]]
           Sample.hello Sample.sealed Sample.sealedKey [call_getKey 4]).
  - exact unseal_seal.
  - reflexivity.
Defined.

(** C4 at the requests 5 then 2 against 2 then 5. *)
Lemma getKey_order_independent_witness :
  Permutation [5; 2] [2; 5] /\
  snd (getKey_all (ReceivingRatchet.new Sample.root) [5; 2]) =
  snd (getKey_all (ReceivingRatchet.new Sample.root) [2; 5]) /\
  (forall k1 k2,
     In (2, k1) (fst (getKey_all (ReceivingRatchet.new Sample.root) [5; 2])) ->
     In (2, k2) (fst (getKey_all (ReceivingRatchet.new Sample.root) [2; 5])) ->
     k1 = k2).
Proof.
  split; [apply perm_swap|].
  pose proof (getKey_order_independent Sample.info Sample.root [5; 2] [2; 5]
                (perm_swap 2 5 [])) as H.
  cbv zeta in H. destruct H as (Hsame & _ & Hfinal & _).
  split; [exact Hfinal|exact (Hsame 2)].
Defined.

(** C7 at a private RSA key and at a private ECDH key. *)
Lemma create_rejects_in_order_witness :
  (supportedAlgorithm Sample.rsaPrivate = false /\
   ECPublicKey.create Sample.rsaPrivate = throw UnsupportedAlgorithmError) /\
  (supportedAlgorithm Sample.ecdhPrivate = true /\
   type Sample.ecdhPrivate <> public /\
   ECPublicKey.create Sample.ecdhPrivate = throw InvalidKeyTypeError).
Proof.
  split.
  - split; [reflexivity|].
    apply (proj1 (create_rejects_in_order Sample.rsaPrivate)). reflexivity.
  - split; [reflexivity|]. split; [discriminate|].
    apply (proj1 (proj2 (create_rejects_in_order Sample.ecdhPrivate))).
    + reflexivity.
    + discriminate.
Defined.

(** C9 at the sample point: imported back as a key-agreement key it is
    rejected, imported back as a signature key it is equal to the
    original. *)
Lemma importKey_serialize_by_kind_witness :
  ECPublicKey.importKey "P-256" (ECPublicKey.serialize Sample.identity) ECDH =
    throw (DOMException "SyntaxError") /\
  (forall k' : ECPublicKey.t,
     ECPublicKey.importKey "P-256" (ECPublicKey.serialize Sample.identity) ECDH <>
     resolve k') /\
  subtle.importKey "jwk"
    (ECPublicKey.importKey_jwk "P-256" (ECPublicKey.serialize Sample.identity))
    {| name := "ECDSA"; namedCurve := "P-256" |}
    true ["verify"%string] = resolve Sample.ecdsaPublic /\
  exists k' : ECPublicKey.t,
    ECPublicKey.importKey "P-256" (ECPublicKey.serialize Sample.identity) ECDSA =
      resolve k' /\
    ECPublicKey.isEqual k' (ECPublicKey.instance Sample.identity) = true /\
    ECPublicKey.isEqual Sample.identity (ECPublicKey.instance k') = true.
Proof.
  pose proof (importKey_serialize_by_kind
                (P := Sample.provider) (C := Sample.codec) (E := Sample.engine)
                "P-256" sample_base64url sample_import_export
                sample_public_ecdh_usages) as (Hecdh & Hecdsa & _).
  split; [reflexivity|].
  split; [exact (proj2 (Hecdh Sample.identity))|].
  split; [reflexivity|].
  apply (Hecdsa Sample.identity Sample.ecdsaPublic). reflexivity.
Defined.

End Samples.


(** * Further properties of the receiving and the sending chain *)

Section MoreReceiving.
Context {P : Secret.Provider}.
Variable INFO_MESSAGE_KEYS : Bytes.

(** Below the counter the loop does not run. *)
Lemma getKey_below (this : ReceivingRatchet.t) (c : Z) :
  c < ReceivingRatchet.counter this ->
  ReceivingRatchet.getKey this c = (index (ReceivingRatchet.keys this) c, this).
Proof.
  intros Hc. unfold ReceivingRatchet.getKey, ReceivingRatchet.getKey_fuel.
  replace (Z.to_nat (c + 1 - ReceivingRatchet.counter this)) with 0%nat by lia.
  reflexivity.
Qed.

(** The outcome of [decrypt] is a function of the key [getKey] returns. *)
Lemma decrypt_result (this : ReceivingRatchet.t) (message : Bytes) (c : Z) :
  fst (ReceivingRatchet.decrypt INFO_MESSAGE_KEYS this message c) =
  match fst (ReceivingRatchet.getKey this c) with
  | None => throw (TypeError "undefined")
  | Some cipherKey =>
      ks <- await ReceivingRatchet.decrypt_keys INFO_MESSAGE_KEYS cipherKey ;;
      cipherText <- await Secret.decrypt (aesKey ks) message (iv ks) ;;
      resolve {| hmacKey := mk_hmacKey ks; cipherText := cipherText |}
  end.
Proof.
  unfold ReceivingRatchet.decrypt.
  destruct (ReceivingRatchet.getKey this c) as [k s]. reflexivity.
Qed.

Lemma exec_call_counter (this : ReceivingRatchet.t) (c : call) :
  exec INFO_MESSAGE_KEYS this c =
  snd (ReceivingRatchet.getKey this (call_counter c)).
Proof.
  destruct c as [counter|message counter]; cbn [exec call_counter].
  - reflexivity.
  - apply decrypt_state.
Qed.

Lemma index_app_old {A} (l added : list A) (i : Z) (a : A) :
  index l i = Some a -> index (l ++ added) i = Some a.
Proof.
  unfold index. destruct (i <? 0); [discriminate|].
  intros H. rewrite nth_error_app1; [exact H|].
  apply nth_error_Some. congruence.
Qed.

(** X1. A key, once returned, is returned again: a second [getKey(c)] gives
    the same key and changes nothing, and a second [decrypt(m, c)] gives the
    same outcome and changes nothing; this holds from any state of the chain,
    no entry of the cache being removed on use. *)
Theorem getKey_again_same_key (this : ReceivingRatchet.t) (message : Bytes) (c : Z) :
  ReceivingRatchet.getKey (snd (ReceivingRatchet.getKey this c)) c =
    (fst (ReceivingRatchet.getKey this c), snd (ReceivingRatchet.getKey this c)) /\
  ReceivingRatchet.decrypt INFO_MESSAGE_KEYS
    (snd (ReceivingRatchet.decrypt INFO_MESSAGE_KEYS this message c)) message c =
    (fst (ReceivingRatchet.decrypt INFO_MESSAGE_KEYS this message c),
     snd (ReceivingRatchet.decrypt INFO_MESSAGE_KEYS this message c)).
Proof.
  assert (Hget : ReceivingRatchet.getKey (snd (ReceivingRatchet.getKey this c)) c =
                 (fst (ReceivingRatchet.getKey this c),
                  snd (ReceivingRatchet.getKey this c))).
  { rewrite getKey_below.
    - now rewrite <- getKey_result.
    - rewrite getKey_counter_max. lia. }
  split; [exact Hget|].
  rewrite decrypt_state.
  apply injective_projections.
  - rewrite !decrypt_result, Hget. reflexivity.
  - rewrite decrypt_state, Hget. reflexivity.
Qed.

(** X2. Two requests in a row leave the chain where one request for the
    larger counter leaves it: counter, root key and cache are the same. *)
Theorem getKey_then_getKey (this : ReceivingRatchet.t) (c1 c2 : Z) :
  snd (ReceivingRatchet.getKey (snd (ReceivingRatchet.getKey this c1)) c2) =
  snd (ReceivingRatchet.getKey this (Z.max c1 c2)).
Proof.
  rewrite (getKey_state (snd _) c2), (getKey_state this c1),
    (getKey_state this (Z.max c1 c2)).
  rewrite <- Nat.iter_add. f_equal.
  unfold ReceivingRatchet.getKey_fuel at 1.
  rewrite getKey_body_iter. unfold ReceivingRatchet.counter at 1.
  cbn [ReceivingRatchet.base SymmetricRatchet.counter].
  unfold ReceivingRatchet.getKey_fuel. lia.
Qed.

(** X3. The cache only grows at its end: after any sequence of [getKey] and
    [decrypt] calls the earlier cache is a prefix of the cache, every entry
    found before is found at the same index, and the counter has grown by
    the number of entries added. *)
Theorem cache_append_only (this : ReceivingRatchet.t) (calls : list call) :
  (exists added : list Bytes,
     ReceivingRatchet.keys (exec_all INFO_MESSAGE_KEYS this calls) =
       ReceivingRatchet.keys this ++ added /\
     ReceivingRatchet.counter (exec_all INFO_MESSAGE_KEYS this calls) =
       ReceivingRatchet.counter this + Z.of_nat (List.length added)) /\
  (forall i k,
     index (ReceivingRatchet.keys this) i = Some k ->
     index (ReceivingRatchet.keys (exec_all INFO_MESSAGE_KEYS this calls)) i = Some k).
Proof.
  assert (Hadd : exists added : list Bytes,
     ReceivingRatchet.keys (exec_all INFO_MESSAGE_KEYS this calls) =
       ReceivingRatchet.keys this ++ added /\
     ReceivingRatchet.counter (exec_all INFO_MESSAGE_KEYS this calls) =
       ReceivingRatchet.counter this + Z.of_nat (List.length added)).
  { revert this. induction calls as [|c calls IH]; intros this.
    - exists []. cbn. now rewrite app_nil_r, Z.add_0_r.
    - change (exec_all INFO_MESSAGE_KEYS this (c :: calls))
        with (exec_all INFO_MESSAGE_KEYS (exec INFO_MESSAGE_KEYS this c) calls).
      rewrite exec_call_counter.
      destruct (IH (snd (ReceivingRatchet.getKey this (call_counter c))))
        as (added & Hk & Hn).
      rewrite getKey_keys in Hk. rewrite getKey_counter in Hn.
      eexists. split.
      + rewrite Hk, <- app_assoc. reflexivity.
      + rewrite Hn, length_app, length_map, length_seq. lia. }
  split; [exact Hadd|].
  destruct Hadd as (added & Hk & _).
  intros i k Hi. rewrite Hk. now apply index_app_old.
Qed.

(** X4. Whatever calls a chain created with root key [r] has taken, its
    counter is not negative, its cache has as many entries as the counter
    says, its root key is the one [counter] steps after [r], and the entry
    at every index below the counter is the cipher key of that step. *)
Theorem chain_determined_by_counter (r : CryptoKey) (calls : list call) :
  let this := exec_all INFO_MESSAGE_KEYS (ReceivingRatchet.new r) calls in
  0 <= ReceivingRatchet.counter this /\
  Z.of_nat (List.length (ReceivingRatchet.keys this)) = ReceivingRatchet.counter this /\
  ReceivingRatchet.rootKey this =
    rootKeyAt r (Z.to_nat (ReceivingRatchet.counter this)) /\
  (forall i, 0 <= i < ReceivingRatchet.counter this ->
     index (ReceivingRatchet.keys this) i = Some (cipherKeyAt r (Z.to_nat i))).
Proof.
  intros this.
  pose proof (seeded_exec_all INFO_MESSAGE_KEYS r calls _ (seeded_new r)) as Hs.
  fold this in Hs. destruct Hs as (Hn & Hroot & Hkeys).
  repeat apply conj.
  - exact Hn.
  - rewrite Hkeys, length_map, length_seq. lia.
  - exact Hroot.
  - intros i Hi.
    rewrite (seeded_index r this i (conj Hn (conj Hroot Hkeys))) by lia.
    unfold keyAt. destruct (Z.ltb_spec i 0); [lia|reflexivity].
Qed.

(** X5. After a sequence of [getKey] and [decrypt] calls the counter is one
    past the highest counter asked for (or what it was, when that is
    higher); a fresh chain therefore holds exactly that many keys, however
    few of the positions were asked for. *)
Theorem counter_after_calls (this : ReceivingRatchet.t) (r : CryptoKey)
        (calls : list call) :
  ReceivingRatchet.counter (exec_all INFO_MESSAGE_KEYS this calls) =
    position (ReceivingRatchet.counter this) calls /\
  Z.of_nat (List.length
              (ReceivingRatchet.keys
                 (exec_all INFO_MESSAGE_KEYS (ReceivingRatchet.new r) calls))) =
    position 0 calls.
Proof.
  assert (Hpos : forall s,
            ReceivingRatchet.counter (exec_all INFO_MESSAGE_KEYS s calls) =
            position (ReceivingRatchet.counter s) calls).
  { induction calls as [|c calls IH]; intros s.
    - reflexivity.
    - change (exec_all INFO_MESSAGE_KEYS s (c :: calls))
        with (exec_all INFO_MESSAGE_KEYS (exec INFO_MESSAGE_KEYS s c) calls).
      rewrite IH, exec_call_counter, getKey_counter_max. reflexivity. }
  split; [apply Hpos|].
  pose proof (seeded_exec_all INFO_MESSAGE_KEYS r calls _ (seeded_new r))
    as (Hn & _ & Hkeys).
  rewrite Hkeys, length_map, length_seq, Z2Nat.id by exact Hn.
  apply Hpos.
Qed.

(** X6. Two chains seeded alike that stand at the same counter hold the
    same root key: the engine of a receiving chain that has taken any calls
    is the sending chain after as many encrypts as its counter says. *)
Theorem same_counter_same_engine (r : CryptoKey) (calls : list call)
        (ms : list Bytes) :
  ReceivingRatchet.counter (exec_all INFO_MESSAGE_KEYS (ReceivingRatchet.new r) calls) =
    Z.of_nat (List.length ms) ->
  ReceivingRatchet.base (exec_all INFO_MESSAGE_KEYS (ReceivingRatchet.new r) calls) =
    encrypt_all INFO_MESSAGE_KEYS (SendingRatchet.new r) ms.
Proof.
  intros Hc.
  pose proof (seeded_exec_all INFO_MESSAGE_KEYS r calls _ (seeded_new r))
    as (_ & Hroot & _).
  rewrite encrypt_all_state.
  unfold ReceivingRatchet.counter, ReceivingRatchet.rootKey in *.
  destruct (ReceivingRatchet.base _) as [n k]. cbn in *.
  subst n k. now rewrite Nat2Z.id.
Qed.

(** X7. What [encrypt] returns and the chain it leaves depend on the seed,
    on the number of messages encrypted before and on the message, not on
    what the earlier messages were. *)
Theorem encrypt_ignores_earlier_messages (r : CryptoKey) (ms ms' : list Bytes)
        (m : Bytes) :
  List.length ms = List.length ms' ->
  SendingRatchet.encrypt INFO_MESSAGE_KEYS
    (encrypt_all INFO_MESSAGE_KEYS (SendingRatchet.new r) ms) m =
  SendingRatchet.encrypt INFO_MESSAGE_KEYS
    (encrypt_all INFO_MESSAGE_KEYS (SendingRatchet.new r) ms') m.
Proof.
  intros Hlen. rewrite !encrypt_all_state, Hlen. reflexivity.
Qed.

(** X8. The outcome of [decrypt(m, c)], a rejection included, is the same
    whatever calls the chain has taken before: it is the outcome computed
    from the key of position [c] of the seed's chain. *)
Theorem decrypt_outcome_history_free (r : CryptoKey) (calls : list call)
        (message : Bytes) (c : Z) :
  fst (ReceivingRatchet.decrypt INFO_MESSAGE_KEYS
         (exec_all INFO_MESSAGE_KEYS (ReceivingRatchet.new r) calls) message c) =
  match keyAt r c with
  | None => throw (TypeError "undefined")
  | Some cipherKey =>
      ks <- await ReceivingRatchet.decrypt_keys INFO_MESSAGE_KEYS cipherKey ;;
      cipherText <- await Secret.decrypt (aesKey ks) message (iv ks) ;;
      resolve {| hmacKey := mk_hmacKey ks; cipherText := cipherText |}
  end.
Proof.
  rewrite decrypt_result.
  rewrite (seeded_getKey_result r _ c
             (seeded_exec_all INFO_MESSAGE_KEYS r calls _ (seeded_new r))).
  reflexivity.
Qed.

(** X9. On a chain created by [new], after any calls, a request for a
    negative counter returns [undefined] and leaves the chain as it is, and
    these are the only requests that return [undefined]. *)
Theorem getKey_undefined_iff_negative (r : CryptoKey) (calls : list call) (c : Z) :
  let this := exec_all INFO_MESSAGE_KEYS (ReceivingRatchet.new r) calls in
  (fst (ReceivingRatchet.getKey this c) = None <-> c < 0) /\
  (c < 0 -> ReceivingRatchet.getKey this c = (None, this)).
Proof.
  intros this.
  pose proof (seeded_exec_all INFO_MESSAGE_KEYS r calls _ (seeded_new r)) as Hs.
  fold this in Hs.
  split.
  - rewrite (seeded_getKey_result r this c Hs). unfold keyAt.
    destruct (Z.ltb_spec c 0); split; intros; try lia; try discriminate; reflexivity.
  - intros Hc. destruct Hs as (Hn & _).
    rewrite getKey_below by lia.
    unfold index. destruct (Z.ltb_spec c 0); [reflexivity|lia].
Qed.

End MoreReceiving.

(** * The key expansion inside [encrypt] and [decrypt] *)

Section Expansion.
Context {P : Secret.Provider}.
Variable INFO_MESSAGE_KEYS : Bytes.

(** The lines of [encrypt] compute the expansion the specification words. *)
Lemma encrypt_keys_spec (cipherKey : Bytes) :
  SendingRatchet.encrypt_keys INFO_MESSAGE_KEYS cipherKey =
  spec_message_keys INFO_MESSAGE_KEYS cipherKey.
Proof.
  unfold SendingRatchet.encrypt_keys, spec_message_keys.
  destruct (Secret.HKDF cipherKey 3 None INFO_MESSAGE_KEYS)
    as [|out0 [|out1 [|out2 rest]]]; reflexivity.
Qed.

(** So do the lines of [decrypt]. *)
Lemma decrypt_keys_spec (cipherKey : Bytes) :
  ReceivingRatchet.decrypt_keys INFO_MESSAGE_KEYS cipherKey =
  spec_message_keys INFO_MESSAGE_KEYS cipherKey.
Proof.
  unfold ReceivingRatchet.decrypt_keys, spec_message_keys.
  destruct (Secret.HKDF cipherKey 3 None INFO_MESSAGE_KEYS)
    as [|out0 [|out1 [|out2 rest]]]; reflexivity.
Qed.

Lemma spec_message_keys_outputs (cipherKey out0 out1 out2 : Bytes) (rest : list Bytes) :
  Secret.HKDF cipherKey 3 None INFO_MESSAGE_KEYS = out0 :: out1 :: out2 :: rest ->
  spec_message_keys INFO_MESSAGE_KEYS cipherKey =
  resolve {| aesKey := Secret.importAES out0;
             mk_hmacKey := Secret.importHMAC out1;
             iv := firstn 16 out2 |}.
Proof. unfold spec_message_keys. now intros ->. Qed.

Lemma encrypt_by_spec (this : SendingRatchet.t) (message : Bytes) :
  SendingRatchet.encrypt INFO_MESSAGE_KEYS this message =
  (ks <- await spec_message_keys INFO_MESSAGE_KEYS (fst (SymmetricRatchet.click this)) ;;
   resolve {| hmacKey := mk_hmacKey ks;
              cipherText := Secret.encrypt (aesKey ks) message (iv ks) |},
   snd (SymmetricRatchet.click this)).
Proof.
  unfold SendingRatchet.encrypt. rewrite click_unfold. cbn [fst snd].
  now rewrite encrypt_keys_spec.
Qed.

Lemma decrypt_by_spec (this : ReceivingRatchet.t) (message : Bytes) (counter : Z) :
  ReceivingRatchet.decrypt INFO_MESSAGE_KEYS this message counter =
  (match fst (ReceivingRatchet.getKey this counter) with
   | None => throw (TypeError "undefined")
   | Some cipherKey =>
       ks <- await spec_message_keys INFO_MESSAGE_KEYS cipherKey ;;
       cipherText <- await Secret.decrypt (aesKey ks) message (iv ks) ;;
       resolve {| hmacKey := mk_hmacKey ks; cipherText := cipherText |}
   end,
   snd (ReceivingRatchet.getKey this counter)).
Proof.
  unfold ReceivingRatchet.decrypt.
  destruct (ReceivingRatchet.getKey this counter) as [[cipherKey|] s]; cbn [fst snd].
  - now rewrite decrypt_keys_spec.
  - reflexivity.
Qed.

(** C6. [encrypt] and [decrypt] expand a cipher key by the same function,
    the one the specification words: HKDF with 3 outputs, no salt and the
    message-keys label, the AES key imported from output 0, the HMAC key
    from output 1 and the IV the first 16 bytes of output 2.  [encrypt]
    seals the message under the AES key and IV of the expansion of the key
    its [click] produced and returns the HMAC key of that expansion;
    [decrypt] opens the message under the AES key and IV of the expansion
    of the key its [getKey] returned and returns the HMAC key of that
    expansion.  On chains seeded alike, the message at position [k] and the
    [decrypt] for counter [k] therefore work from one and the same
    expansion of one and the same cipher key. *)
Theorem message_keys_expansion_same (sending : SendingRatchet.t)
        (receiving : ReceivingRatchet.t) (message : Bytes) (counter : Z)
        (r : CryptoKey) (ms : list Bytes) (calls : list call) :
  SendingRatchet.encrypt INFO_MESSAGE_KEYS sending message =
    (ks <- await spec_message_keys INFO_MESSAGE_KEYS
                   (fst (SymmetricRatchet.click sending)) ;;
     resolve {| hmacKey := mk_hmacKey ks;
                cipherText := Secret.encrypt (aesKey ks) message (iv ks) |},
     snd (SymmetricRatchet.click sending)) /\
  ReceivingRatchet.decrypt INFO_MESSAGE_KEYS receiving message counter =
    (match fst (ReceivingRatchet.getKey receiving counter) with
     | None => throw (TypeError "undefined")
     | Some cipherKey =>
         ks <- await spec_message_keys INFO_MESSAGE_KEYS cipherKey ;;
         cipherText <- await Secret.decrypt (aesKey ks) message (iv ks) ;;
         resolve {| hmacKey := mk_hmacKey ks; cipherText := cipherText |}
     end,
     snd (ReceivingRatchet.getKey receiving counter)) /\
  (forall out0 out1 out2 rest,
     Secret.HKDF (fst (SymmetricRatchet.click sending)) 3 None INFO_MESSAGE_KEYS =
       out0 :: out1 :: out2 :: rest ->
     fst (SendingRatchet.encrypt INFO_MESSAGE_KEYS sending message) =
       resolve {| hmacKey := Secret.importHMAC out1;
                  cipherText := Secret.encrypt (Secret.importAES out0) message
                                               (firstn 16 out2) |}) /\
  (forall cipherKey out0 out1 out2 rest,
     fst (ReceivingRatchet.getKey receiving counter) = Some cipherKey ->
     Secret.HKDF cipherKey 3 None INFO_MESSAGE_KEYS = out0 :: out1 :: out2 :: rest ->
     fst (ReceivingRatchet.decrypt INFO_MESSAGE_KEYS receiving message counter) =
       (cipherText <- await Secret.decrypt (Secret.importAES out0) message
                                           (firstn 16 out2) ;;
        resolve {| hmacKey := Secret.importHMAC out1; cipherText := cipherText |})) /\
  fst (SendingRatchet.encrypt INFO_MESSAGE_KEYS
         (encrypt_all INFO_MESSAGE_KEYS (SendingRatchet.new r) ms) message) =
    (ks <- await spec_message_keys INFO_MESSAGE_KEYS
                   (cipherKeyAt r (List.length ms)) ;;
     resolve {| hmacKey := mk_hmacKey ks;
                cipherText := Secret.encrypt (aesKey ks) message (iv ks) |}) /\
  fst (ReceivingRatchet.decrypt INFO_MESSAGE_KEYS
         (exec_all INFO_MESSAGE_KEYS (ReceivingRatchet.new r) calls)
         message (Z.of_nat (List.length ms))) =
    (ks <- await spec_message_keys INFO_MESSAGE_KEYS
                   (cipherKeyAt r (List.length ms)) ;;
     cipherText <- await Secret.decrypt (aesKey ks) message (iv ks) ;;
     resolve {| hmacKey := mk_hmacKey ks; cipherText := cipherText |}) /\
  (forall cipherKey,
     ReceivingRatchet.decrypt_keys INFO_MESSAGE_KEYS cipherKey =
       SendingRatchet.encrypt_keys INFO_MESSAGE_KEYS cipherKey /\
     SendingRatchet.encrypt_keys INFO_MESSAGE_KEYS cipherKey =
       spec_message_keys INFO_MESSAGE_KEYS cipherKey).
Proof.
  repeat apply conj.
  - apply encrypt_by_spec.
  - apply decrypt_by_spec.
  - intros out0 out1 out2 rest Hout.
    rewrite encrypt_by_spec. cbn [fst].
    rewrite (spec_message_keys_outputs _ _ _ _ _ Hout). reflexivity.
  - intros cipherKey out0 out1 out2 rest Hkey Hout.
    rewrite decrypt_by_spec. cbn [fst]. rewrite Hkey.
    rewrite (spec_message_keys_outputs _ _ _ _ _ Hout). reflexivity.
  - rewrite encrypt_by_spec. cbn [fst].
    rewrite encrypt_all_state, click_unfold.
    cbn [fst SymmetricRatchet.rootKey SendingRatchet.new SymmetricRatchet.new].
    now rewrite cipherKeyAt_plus, Nat.add_0_r.
  - rewrite decrypt_by_spec. cbn [fst].
    rewrite (seeded_getKey_result r _ (Z.of_nat (List.length ms))
               (seeded_exec_all INFO_MESSAGE_KEYS r calls _ (seeded_new r))).
    unfold keyAt.
    destruct (Z.ltb_spec (Z.of_nat (List.length ms)) 0) as [Hneg|_]; [lia|].
    now rewrite Nat2Z.id.
  - intros cipherKey. split; [apply message_keys_agree|apply encrypt_keys_spec].
Qed.

End Expansion.

(** * Further properties of the public key wrapper *)

Lemma utils_isEqual_sym (b1 b2 : Bytes) : utils.isEqual b1 b2 = utils.isEqual b2 b1.
Proof.
  destruct (utils.isEqual b1 b2) eqn:H12, (utils.isEqual b2 b1) eqn:H21;
    try reflexivity.
  - apply isEqual_true_iff in H12. apply isEqual_false_iff in H21. congruence.
  - apply isEqual_true_iff in H21. apply isEqual_false_iff in H12. congruence.
Qed.

Section MorePublicKey.
Context {P : Secret.Provider} {C : Convert.Codec} {E : subtle.Engine}.
Variable NAMED_CURVE : string.

(** Everything a resolved [create] tells about its argument and result. *)
Lemma create_inverted (h : CryptoKey) (k : ECPublicKey.t) :
  ECPublicKey.create h = resolve k ->
  supportedAlgorithm h = true /\ type h = public /\
  exists jwk : JsonWebKey,
    subtle.exportKey "jwk" h = resolve jwk /\
    ECPublicKey.key k = h /\
    ECPublicKey.serialized k =
      Convert.FromBase64Url (x jwk) ++ Convert.FromBase64Url (y jwk) /\
    ECPublicKey.id k = ECPublicKey.thumbprint k.
Proof.
  intros Hk.
  destruct (supportedAlgorithm h) eqn:Hsup;
    [|rewrite (create_unsupported h Hsup) in Hk; discriminate].
  assert (Hty : type h = public).
  { destruct (type h) eqn:Hty; [reflexivity| |];
      rewrite (create_not_public h Hsup) in Hk;
      try discriminate; rewrite Hty; discriminate. }
  repeat split; try assumption.
  destruct (subtle.exportKey "jwk" h) as [e|jwk] eqn:Hexp.
  - unfold supportedAlgorithm in Hsup. unfold ECPublicKey.create in Hk.
    cbv zeta in Hk. rewrite Hsup, Hty, Hexp in Hk. discriminate.
  - destruct (create_resolved h jwk Hsup Hty Hexp) as (k' & Hk' & Hrest).
    rewrite Hk in Hk'. injection Hk' as <-. now exists jwk.
Qed.

Lemma create_export_rejected (h : CryptoKey) (e : Exn) :
  supportedAlgorithm h = true -> type h = public ->
  subtle.exportKey "jwk" h = throw e ->
  ECPublicKey.create h = throw e.
Proof.
  unfold supportedAlgorithm, ECPublicKey.create. cbv zeta.
  intros -> -> ->. reflexivity.
Qed.

(** X10. On identities [isEqual] is an equivalence: every identity equals
    itself, the answer does not depend on which of the two is asked, and two
    identities equal to a third are equal. *)
Theorem isEqual_equivalence (a b c : ECPublicKey.t) :
  ECPublicKey.isEqual a (ECPublicKey.instance a) = true /\
  ECPublicKey.isEqual a (ECPublicKey.instance b) =
    ECPublicKey.isEqual b (ECPublicKey.instance a) /\
  (ECPublicKey.isEqual a (ECPublicKey.instance b) = true ->
   ECPublicKey.isEqual b (ECPublicKey.instance c) = true ->
   ECPublicKey.isEqual a (ECPublicKey.instance c) = true).
Proof.
  rewrite !isEqual_instance. repeat apply conj.
  - now apply isEqual_true_iff.
  - apply utils_isEqual_sym.
  - rewrite !isEqual_true_iff. congruence.
Qed.

(** X11. The identifier that [create] stores is the thumbprint of the
    identity, the hex form of the SHA-1 digest of its serialization; so two
    created identities that [isEqual] finds equal carry the same
    identifier, whatever their native keys are. *)
Theorem created_id_is_thumbprint (h1 h2 : CryptoKey) (k1 k2 : ECPublicKey.t) :
  ECPublicKey.create h1 = resolve k1 ->
  ECPublicKey.create h2 = resolve k2 ->
  ECPublicKey.id k1 = ECPublicKey.thumbprint k1 /\
  ECPublicKey.id k1 =
    Convert.ToHex (Secret.digest "SHA-1" (ECPublicKey.serialize k1)) /\
  (ECPublicKey.isEqual k1 (ECPublicKey.instance k2) = true ->
   ECPublicKey.id k1 = ECPublicKey.id k2).
Proof.
  intros H1 H2.
  destruct (create_inverted h1 k1 H1) as (_ & _ & j1 & _ & _ & _ & Hid1).
  destruct (create_inverted h2 k2 H2) as (_ & _ & j2 & _ & _ & _ & Hid2).
  repeat apply conj.
  - exact Hid1.
  - exact Hid1.
  - rewrite isEqual_instance, isEqual_true_iff. intros Hser.
    rewrite Hid1, Hid2. unfold ECPublicKey.thumbprint, ECPublicKey.serialize.
    now rewrite Hser.
Qed.

(** X12. [create] resolves exactly for a public key of a supported algorithm
    whose export resolves; the identity then keeps the handle it was given,
    unchanged, and serializes to the decoded x followed by the decoded y.
    When the export rejects, [create] rejects with the same reason. *)
Theorem create_outcomes (h : CryptoKey) :
  (forall k, ECPublicKey.create h = resolve k ->
     supportedAlgorithm h = true /\ type h = public /\
     ECPublicKey.key k = h /\
     exists jwk : JsonWebKey,
       subtle.exportKey "jwk" h = resolve jwk /\
       ECPublicKey.serialize k =
         Convert.FromBase64Url (x jwk) ++ Convert.FromBase64Url (y jwk)) /\
  (forall jwk, supportedAlgorithm h = true -> type h = public ->
     subtle.exportKey "jwk" h = resolve jwk ->
     exists k, ECPublicKey.create h = resolve k) /\
  (forall e, supportedAlgorithm h = true -> type h = public ->
     subtle.exportKey "jwk" h = throw e ->
     ECPublicKey.create h = throw e).
Proof.
  repeat apply conj.
  - intros k Hk.
    destruct (create_inverted h k Hk) as (Hsup & Hty & jwk & Hexp & Hkey & Hser & _).
    repeat split; try assumption. now exists jwk.
  - intros jwk Hsup Hty Hexp.
    destruct (create_resolved h jwk Hsup Hty Hexp) as (k & Hk & _). now exists k.
  - intros e. apply create_export_rejected.
Qed.

Section MoreRoundTrip.

Hypothesis base64url_round_trip :
  forall b : Bytes, Convert.FromBase64Url (Convert.ToBase64Url b) = b.

Hypothesis import_export_round_trip :
  forall (jwk : JsonWebKey) (alg : EcKeyImportParams) (extractable : bool)
         (usages : list string) (h : CryptoKey),
    subtle.importKey "jwk" jwk alg extractable usages = resolve h ->
    toUpperCase (algorithm_name h) = toUpperCase (name alg) /\
    type h = public /\
    exists jwk' : JsonWebKey,
      subtle.exportKey "jwk" h = resolve jwk' /\
      Convert.FromBase64Url (x jwk') = Convert.FromBase64Url (x jwk) /\
      Convert.FromBase64Url (y jwk') = Convert.FromBase64Url (y jwk).

(** What a resolved [importKey] went through. *)
Lemma importKey_inverted (bytes : Bytes) (kind : ECKeyType) (k : ECPublicKey.t) :
  ECPublicKey.importKey NAMED_CURVE bytes kind = resolve k ->
  exists h : CryptoKey,
    subtle.importKey "jwk" (ECPublicKey.importKey_jwk NAMED_CURVE bytes)
      {| name := ECKeyType_string kind; namedCurve := NAMED_CURVE |}
      true (ECPublicKey.importKey_usage kind) = resolve h /\
    ECPublicKey.create h = resolve k.
Proof.
  unfold ECPublicKey.importKey. cbv zeta.
  destruct (subtle.importKey _ _ _ _ _) as [e|h]; [discriminate|].
  rewrite bind_resolve.
  destruct (ECPublicKey.create h) as [e|k'] eqn:Hc; [discriminate|].
  rewrite bind_resolve. intros Hk. exists h. split; [reflexivity|].
  rewrite Hc. exact Hk.
Qed.

(** X13. Under the two laws of the provider (base64url decoding inverts the
    encoding; an imported key is public, of the requested algorithm, and
    exports the coordinates it was imported from): an identity that
    [importKey(bytes, kind)] resolves to serializes to [bytes] again,
    whatever the length of [bytes], holds the key the provider imported, of
    the requested algorithm, and carries the hex SHA-1 digest of [bytes] as
    its identifier; and when the provider rejects the coordinates,
    [importKey] rejects with the same reason. *)
Theorem importKey_then_serialize (bytes : Bytes) (kind : ECKeyType) :
  (forall k, ECPublicKey.importKey NAMED_CURVE bytes kind = resolve k ->
     ECPublicKey.serialize k = bytes /\
     ECPublicKey.id k = Convert.ToHex (Secret.digest "SHA-1" bytes) /\
     toUpperCase (algorithm_name (ECPublicKey.key k)) = ECKeyType_string kind /\
     subtle.importKey "jwk" (ECPublicKey.importKey_jwk NAMED_CURVE bytes)
       {| name := ECKeyType_string kind; namedCurve := NAMED_CURVE |}
       true (ECPublicKey.importKey_usage kind) = resolve (ECPublicKey.key k)) /\
  (forall e,
     subtle.importKey "jwk" (ECPublicKey.importKey_jwk NAMED_CURVE bytes)
       {| name := ECKeyType_string kind; namedCurve := NAMED_CURVE |}
       true (ECPublicKey.importKey_usage kind) = throw e ->
     ECPublicKey.importKey NAMED_CURVE bytes kind = throw e).
Proof.
  split.
  - intros k Hk.
    pose proof (importKey_serialized NAMED_CURVE base64url_round_trip
                  import_export_round_trip bytes kind k Hk) as Hser.
    destruct (importKey_inverted bytes kind k Hk) as (h & Himp & Hcreate).
    destruct (create_inverted h k Hcreate) as (_ & _ & jwk & _ & Hkey & _ & Hid).
    destruct (import_export_round_trip _ _ _ _ _ Himp) as (Halg & _).
    repeat apply conj.
    + exact Hser.
    + rewrite Hid. unfold ECPublicKey.thumbprint, ECPublicKey.serialize.
      now rewrite Hser.
    + rewrite Hkey, Halg. cbn [name]. apply toUpperCase_ECKeyType.
    + rewrite Hkey. exact Himp.
  - intros e He. unfold ECPublicKey.importKey. cbv zeta. now rewrite He.
Qed.

End MoreRoundTrip.

End MorePublicKey.

(** * The ratchets when the provider rejects *)

Lemma counter_push (this : ReceivingRatchet.t) (k : Bytes) :
  ReceivingRatchet.counter (ReceivingRatchet.push this k) =
  ReceivingRatchet.counter this.
Proof. reflexivity. Qed.

Lemma keys_push (this : ReceivingRatchet.t) (k : Bytes) :
  ReceivingRatchet.keys (ReceivingRatchet.push this k) =
  ReceivingRatchet.keys this ++ [k].
Proof. reflexivity. Qed.

Lemma position_monotone (calls : list call) :
  forall a b : Z, a <= b -> position a calls <= position b calls.
Proof.
  unfold position. induction calls as [|c calls IH]; intros a b Hab; cbn [fold_left].
  - exact Hab.
  - apply IH. lia.
Qed.

Section Rejections.
Context {P : AsyncSecret.Provider}.
Variable INFO_MESSAGE_KEYS : Bytes.

Lemma async_click_cases (this : SymmetricRatchet.t) :
  (exists e, Async.calculateKey (SymmetricRatchet.rootKey this) = throw e /\
             Async.click this = (inl e, this)) \/
  (exists res, Async.calculateKey (SymmetricRatchet.rootKey this) = resolve res /\
               Async.click this =
               (inr (SymmetricKDFResult.cipher res),
                {| SymmetricRatchet.counter := SymmetricRatchet.counter this + 1;
                   SymmetricRatchet.rootKey := SymmetricKDFResult.rootKey res |})).
Proof.
  unfold Async.click. cbv zeta.
  destruct (Async.calculateKey (SymmetricRatchet.rootKey this)) as [e|res].
  - left. now exists e.
  - right. now exists res.
Qed.

Lemma async_click_receiving_cases (this : ReceivingRatchet.t) :
  (exists e, Async.click_receiving this = (inl e, this)) \/
  (exists k this1,
     Async.click_receiving this = (inr k, this1) /\
     ReceivingRatchet.counter this1 = ReceivingRatchet.counter this + 1 /\
     ReceivingRatchet.keys this1 = ReceivingRatchet.keys this).
Proof.
  unfold Async.click_receiving.
  destruct (async_click_cases (ReceivingRatchet.base this))
    as [(e & _ & ->)|(res & _ & ->)].
  - left. exists e. now destruct this.
  - right. eexists. eexists. split; [reflexivity|]. split; reflexivity.
Qed.

(** The loop under rejections: what it adds, how far it gets. *)
Lemma async_getKey_while_spec (c : Z) (fuel : nat) :
  forall this : ReceivingRatchet.t,
  exists added : list Bytes,
    ReceivingRatchet.keys (snd (Async.getKey_while fuel this c)) =
      ReceivingRatchet.keys this ++ added /\
    ReceivingRatchet.counter (snd (Async.getKey_while fuel this c)) =
      ReceivingRatchet.counter this + Z.of_nat (List.length added) /\
    ReceivingRatchet.counter (snd (Async.getKey_while fuel this c)) <=
      Z.max (ReceivingRatchet.counter this) (c + 1) /\
    (forall e, fst (Async.getKey_while fuel this c) = throw e ->
       ReceivingRatchet.counter (snd (Async.getKey_while fuel this c)) <= c) /\
    ((ReceivingRatchet.getKey_fuel this c <= fuel)%nat ->
     forall u, fst (Async.getKey_while fuel this c) = resolve u ->
       c < ReceivingRatchet.counter (snd (Async.getKey_while fuel this c))).
Proof.
  unfold ReceivingRatchet.getKey_fuel.
  induction fuel as [|fuel IH]; intros this; cbn [Async.getKey_while].
  - exists []. cbn [fst snd List.length]. rewrite app_nil_r.
    repeat apply conj;
      [reflexivity|lia|lia|intros e He; discriminate He|intros Hf _ _; lia].
  - destruct (Z.leb_spec (ReceivingRatchet.counter this) c) as [Hle|Hgt].
    + destruct (async_click_receiving_cases this)
        as [(e & ->)|(k & this1 & -> & Hn1 & Hk1)].
      * exists []. cbn [fst snd List.length]. rewrite app_nil_r.
        repeat apply conj;
          [reflexivity|lia|lia|intros _ _; exact Hle|intros _ u Hu; discriminate Hu].
      * destruct (IH (ReceivingRatchet.push this1 k))
          as (added & Hkeys & Hcount & Hmax & Hrej & Hres).
        rewrite counter_push in Hcount, Hmax, Hres. rewrite keys_push in Hkeys.
        exists (k :: added). repeat apply conj.
        -- rewrite Hkeys, Hk1, <- app_assoc. reflexivity.
        -- rewrite Hcount, Hn1. cbn [List.length]. lia.
        -- lia.
        -- exact Hrej.
        -- intros Hf. apply Hres. lia.
    + exists []. cbn [fst snd List.length]. rewrite app_nil_r.
      repeat apply conj;
        [reflexivity|lia|lia|intros e He; discriminate He|intros _ _ _; lia].
Qed.

Lemma async_getKey_fst (this : ReceivingRatchet.t) (c : Z) :
  fst (Async.getKey this c) =
  match fst (Async.getKey_while (ReceivingRatchet.getKey_fuel this c) this c) with
  | inl e => throw e
  | inr _ =>
      resolve (index (ReceivingRatchet.keys
                        (snd (Async.getKey_while
                                (ReceivingRatchet.getKey_fuel this c) this c))) c)
  end.
Proof.
  unfold Async.getKey.
  destruct (Async.getKey_while _ this c) as [[e|u] s]; reflexivity.
Qed.

Lemma async_getKey_snd (this : ReceivingRatchet.t) (c : Z) :
  snd (Async.getKey this c) =
  snd (Async.getKey_while (ReceivingRatchet.getKey_fuel this c) this c).
Proof.
  unfold Async.getKey.
  destruct (Async.getKey_while _ this c) as [[e|u] s]; reflexivity.
Qed.

Lemma async_decrypt_state (this : ReceivingRatchet.t) (message : Bytes) (c : Z) :
  snd (Async.decrypt INFO_MESSAGE_KEYS this message c) = snd (Async.getKey this c).
Proof.
  unfold Async.decrypt.
  destruct (Async.getKey this c) as [[e|k] s]; reflexivity.
Qed.

Lemma async_getKey_below (this : ReceivingRatchet.t) (c : Z) :
  c < ReceivingRatchet.counter this ->
  Async.getKey this c = (resolve (index (ReceivingRatchet.keys this) c), this).
Proof.
  intros Hc. unfold Async.getKey, ReceivingRatchet.getKey_fuel.
  replace (Z.to_nat (c + 1 - ReceivingRatchet.counter this)) with 0%nat by lia.
  reflexivity.
Qed.

(** X15. [click] is all or nothing: it rejects with the reason of the first
    provider call that rejects (the signature of the tag 1, the signature
    of the tag 2, the import of the next root key, in this order) and then
    leaves root key and counter as they were; when it resolves, the three
    calls have resolved, the counter has grown by one and the root key is
    the imported one. *)
Theorem click_all_or_nothing (this : SymmetricRatchet.t) :
  let r := SymmetricRatchet.rootKey this in
  (forall e, fst (Async.click this) = throw e -> snd (Async.click this) = this) /\
  (forall e, AsyncSecret.sign r [x01] = throw e -> Async.click this = (throw e, this)) /\
  (forall k e, AsyncSecret.sign r [x01] = resolve k ->
               AsyncSecret.sign r [x02] = throw e ->
               Async.click this = (throw e, this)) /\
  (forall k next e, AsyncSecret.sign r [x01] = resolve k ->
                    AsyncSecret.sign r [x02] = resolve next ->
                    AsyncSecret.importHMAC (Some next) = throw e ->
                    Async.click this = (throw e, this)) /\
  (forall k, fst (Async.click this) = resolve k ->
     AsyncSecret.sign r [x01] = resolve k /\
     SymmetricRatchet.counter (snd (Async.click this)) =
       SymmetricRatchet.counter this + 1 /\
     exists next,
       AsyncSecret.sign r [x02] = resolve next /\
       AsyncSecret.importHMAC (Some next) =
         resolve (SymmetricRatchet.rootKey (snd (Async.click this)))).
Proof.
  intros r. subst r. repeat apply conj.
  - intros e He.
    destruct (async_click_cases this) as [(e' & _ & Hc)|(res & _ & Hc)];
      rewrite Hc in *; [reflexivity|discriminate He].
  - intros e He. unfold Async.click, Async.calculateKey. cbv zeta.
    unfold CIPHER_KEY_KDF_INPUT. now rewrite He.
  - intros k e Hk He. unfold Async.click, Async.calculateKey. cbv zeta.
    unfold CIPHER_KEY_KDF_INPUT, ROOT_KEY_KDF_INPUT.
    now rewrite Hk, bind_resolve, He.
  - intros k next e Hk Hn He. unfold Async.click, Async.calculateKey. cbv zeta.
    unfold CIPHER_KEY_KDF_INPUT, ROOT_KEY_KDF_INPUT.
    now rewrite Hk, bind_resolve, Hn, bind_resolve, He.
  - intros k. unfold Async.click, Async.calculateKey. cbv zeta.
    unfold CIPHER_KEY_KDF_INPUT, ROOT_KEY_KDF_INPUT.
    destruct (AsyncSecret.sign (SymmetricRatchet.rootKey this) [x01]) as [e|k1];
      [discriminate|].
    rewrite bind_resolve.
    destruct (AsyncSecret.sign (SymmetricRatchet.rootKey this) [x02]) as [e|next];
      [discriminate|].
    rewrite bind_resolve.
    destruct (AsyncSecret.importHMAC (Some next)) as [e|imported] eqn:Himp;
      [discriminate|].
    rewrite bind_resolve. cbn. intros Hk. unfold resolve in Hk.
    injection Hk as ->. repeat split.
    exists next. split; [reflexivity|exact Himp].
Qed.

(** X16. A rejection inside the [click] of [encrypt] leaves the sending
    chain as it was; once [click] has resolved the step is spent, whether or
    not the rest of [encrypt] resolves: the chain is the one [click] left,
    one step further.  This is what happens when HKDF resolves with fewer
    than three outputs: [encrypt] rejects and the step is spent. *)
Theorem encrypt_rejected_step (this : SendingRatchet.t) (message : Bytes) :
  (forall e, fst (Async.click this) = throw e ->
     Async.encrypt INFO_MESSAGE_KEYS this message = (throw e, this)) /\
  (forall k, fst (Async.click this) = resolve k ->
     snd (Async.encrypt INFO_MESSAGE_KEYS this message) = snd (Async.click this) /\
     SymmetricRatchet.counter (snd (Async.encrypt INFO_MESSAGE_KEYS this message)) =
       SymmetricRatchet.counter this + 1) /\
  (forall k keys, fst (Async.click this) = resolve k ->
     AsyncSecret.HKDF (Some k) 3 None INFO_MESSAGE_KEYS = resolve keys ->
     (List.length keys < 3)%nat ->
     exists e, fst (Async.encrypt INFO_MESSAGE_KEYS this message) = throw e).
Proof.
  unfold Async.encrypt.
  destruct (async_click_cases this) as [(e' & _ & Hc)|(res & _ & Hc)]; rewrite Hc;
    cbn [fst snd]; repeat apply conj.
  - intros e He. unfold throw in He. injection He as ->. reflexivity.
  - intros k Hk. discriminate Hk.
  - intros k keys Hk. discriminate Hk.
  - intros e He. discriminate He.
  - intros k _. split; [reflexivity|]. cbn. reflexivity.
  - intros k keys Hk Hkeys Hlen. unfold resolve in Hk. injection Hk as Hk.
    unfold Async.message_keys. rewrite Hk, Hkeys, bind_resolve.
    destruct (AsyncSecret.importAES (index keys 0)) as [e|a];
      [exists e; reflexivity|].
    rewrite bind_resolve.
    destruct (AsyncSecret.importHMAC (index keys 1)) as [e|hm];
      [exists e; reflexivity|].
    rewrite bind_resolve.
    assert (Hnone : index keys 2 = None).
    { unfold index. cbn. apply nth_error_None. lia. }
    rewrite Hnone. eexists. reflexivity.
Qed.


(** X18. Below the counter nothing can reject: for [c] below the counter
    [getKey(c)] resolves with the cache entry at [c] and leaves the chain as
    it is, whatever the provider does, and [decrypt] leaves the chain as it
    is; so once [getKey(c)] has resolved with a key, asking again resolves
    with the same key without touching the chain. *)
Theorem getKey_cached_never_rejects (this : ReceivingRatchet.t)
        (message : Bytes) (c : Z) :
  (c < ReceivingRatchet.counter this ->
     Async.getKey this c = (resolve (index (ReceivingRatchet.keys this) c), this) /\
     snd (Async.decrypt INFO_MESSAGE_KEYS this message c) = this) /\
  (forall k, fst (Async.getKey this c) = resolve k ->
     Async.getKey (snd (Async.getKey this c)) c =
       (resolve k, snd (Async.getKey this c))).
Proof.
  split.
  - intros Hc. split; [now apply async_getKey_below|].
    rewrite async_decrypt_state, async_getKey_below by exact Hc. reflexivity.
  - intros k Hk. rewrite async_getKey_fst in Hk.
    destruct (async_getKey_while_spec c (ReceivingRatchet.getKey_fuel this c) this)
      as (_ & _ & _ & _ & _ & Hres).
    destruct (fst (Async.getKey_while _ this c)) as [e'|u] eqn:Hw;
      [discriminate Hk|].
    specialize (Hres (le_n _) u eq_refl).
    rewrite <- async_getKey_snd in Hres, Hk.
    rewrite async_getKey_below by exact Hres.
    unfold resolve in Hk. injection Hk as <-. reflexivity.
Qed.

Lemma async_exec_call_counter (this : ReceivingRatchet.t) (c : call) :
  Async.exec INFO_MESSAGE_KEYS this c = snd (Async.getKey this (call_counter c)).
Proof.
  destruct c as [counter|message counter]; cbn [Async.exec call_counter].
  - reflexivity.
  - apply async_decrypt_state.
Qed.

(** X19. Whatever calls a chain created by [new] takes and whichever of them
    reject, its counter is not negative, it is at most one past the highest
    counter asked for, and the cache has exactly as many entries as the
    counter says. *)
Theorem rejections_keep_cache_in_step (r : CryptoKey) (calls : list call) :
  let this := Async.exec_all INFO_MESSAGE_KEYS (ReceivingRatchet.new r) calls in
  0 <= ReceivingRatchet.counter this <= position 0 calls /\
  Z.of_nat (List.length (ReceivingRatchet.keys this)) = ReceivingRatchet.counter this.
Proof.
  assert (Hgen : forall s,
    0 <= ReceivingRatchet.counter s ->
    Z.of_nat (List.length (ReceivingRatchet.keys s)) = ReceivingRatchet.counter s ->
    0 <= ReceivingRatchet.counter (Async.exec_all INFO_MESSAGE_KEYS s calls)
      <= position (ReceivingRatchet.counter s) calls /\
    Z.of_nat (List.length
                (ReceivingRatchet.keys (Async.exec_all INFO_MESSAGE_KEYS s calls))) =
      ReceivingRatchet.counter (Async.exec_all INFO_MESSAGE_KEYS s calls)).
  { induction calls as [|c calls IH]; intros s Hpos Hlen.
    - cbn. unfold position. cbn. lia.
    - change (Async.exec_all INFO_MESSAGE_KEYS s (c :: calls))
        with (Async.exec_all INFO_MESSAGE_KEYS (Async.exec INFO_MESSAGE_KEYS s c) calls).
      rewrite async_exec_call_counter.
      destruct (async_getKey_while_spec (call_counter c)
                  (ReceivingRatchet.getKey_fuel s (call_counter c)) s)
        as (added & Hkeys & Hcount & Hmax & _ & _).
      rewrite <- async_getKey_snd in Hkeys, Hcount, Hmax.
      destruct (IH (snd (Async.getKey s (call_counter c)))) as [Hrange Hl].
      + lia.
      + rewrite Hkeys, length_app, Hcount. lia.
      + split; [|exact Hl]. split; [lia|].
        destruct Hrange as [_ Hup]. etransitivity; [exact Hup|].
        unfold position. cbn [fold_left].
        fold (position (ReceivingRatchet.counter (snd (Async.getKey s (call_counter c)))) calls).
        fold (position (Z.max (ReceivingRatchet.counter s) (call_counter c + 1)) calls).
        apply position_monotone. exact Hmax. }
  intros this. subst this. apply (Hgen (ReceivingRatchet.new r)).
  - cbn. lia.
  - reflexivity.
Qed.

End Rejections.

(** * A provider that never rejects *)

Section NeverRejecting.
Context {P : Secret.Provider}.
Variable INFO_MESSAGE_KEYS : Bytes.

Lemma lift_message_keys (cipherKey : Bytes) :
  @Async.message_keys (AsyncSecret.lift P) INFO_MESSAGE_KEYS (Some cipherKey) =
  SendingRatchet.encrypt_keys INFO_MESSAGE_KEYS cipherKey.
Proof.
  unfold Async.message_keys, SendingRatchet.encrypt_keys. cbn.
  destruct (Secret.HKDF cipherKey 3 None INFO_MESSAGE_KEYS)
    as [|out0 [|out1 [|out2 rest]]]; reflexivity.
Qed.

Lemma lift_getKey_while (c : Z) (fuel : nat) :
  forall this : ReceivingRatchet.t,
    @Async.getKey_while (AsyncSecret.lift P) fuel this c =
    (resolve tt, ReceivingRatchet.getKey_while fuel this c).
Proof.
  induction fuel as [|fuel IH]; intros this;
    cbn [Async.getKey_while ReceivingRatchet.getKey_while].
  - reflexivity.
  - destruct (ReceivingRatchet.counter this <=? c); [|reflexivity].
    exact (IH (ReceivingRatchet.getKey_body this)).
Qed.

Lemma lift_getKey (this : ReceivingRatchet.t) (c : Z) :
  @Async.getKey (AsyncSecret.lift P) this c =
  (resolve (fst (ReceivingRatchet.getKey this c)),
   snd (ReceivingRatchet.getKey this c)).
Proof.
  unfold Async.getKey. rewrite lift_getKey_while. reflexivity.
Qed.

(** X20. With a provider that resolves every call on a buffer (and rejects
    an [undefined] one), the methods written with rejections are the methods
    written without: [click] and [getKey] resolve with the same value and
    leave the same chain, and [encrypt] and [decrypt] have the same outcome
    and leave the same chain. *)
Theorem never_rejecting_provider_agrees (engine : SymmetricRatchet.t)
        (chain : ReceivingRatchet.t) (message : Bytes) (c : Z) :
  @Async.click (AsyncSecret.lift P) engine =
    (resolve (fst (SymmetricRatchet.click engine)),
     snd (SymmetricRatchet.click engine)) /\
  @Async.encrypt (AsyncSecret.lift P) INFO_MESSAGE_KEYS engine message =
    SendingRatchet.encrypt INFO_MESSAGE_KEYS engine message /\
  @Async.getKey (AsyncSecret.lift P) chain c =
    (resolve (fst (ReceivingRatchet.getKey chain c)),
     snd (ReceivingRatchet.getKey chain c)) /\
  @Async.decrypt (AsyncSecret.lift P) INFO_MESSAGE_KEYS chain message c =
    ReceivingRatchet.decrypt INFO_MESSAGE_KEYS chain message c.
Proof.
  repeat apply conj.
  - reflexivity.
  - unfold Async.encrypt, SendingRatchet.encrypt.
    change (@Async.click (AsyncSecret.lift P) engine)
      with (@inr Exn Bytes (fst (SymmetricRatchet.click engine)),
            snd (SymmetricRatchet.click engine)).
    rewrite click_unfold. cbn [fst snd].
    rewrite lift_message_keys.
    destruct (SendingRatchet.encrypt_keys _ _) as [e|ks]; reflexivity.
  - apply lift_getKey.
  - unfold Async.decrypt, ReceivingRatchet.decrypt. rewrite lift_getKey.
    destruct (ReceivingRatchet.getKey chain c) as [[k|] s]; cbn [fst snd].
    + unfold resolve at 1. cbv iota.
      rewrite lift_message_keys.
      change (ReceivingRatchet.decrypt_keys INFO_MESSAGE_KEYS k)
        with (SendingRatchet.encrypt_keys INFO_MESSAGE_KEYS k).
      destruct (SendingRatchet.encrypt_keys _ _) as [e|ks]; reflexivity.
    + reflexivity.
Qed.

End NeverRejecting.

(** * The further properties at the sample providers *)

Section MoreSamples.

#[local] Existing Instance Sample.provider.
#[local] Existing Instance Sample.codec.
#[local] Existing Instance Sample.engine.

(** X3 at a chain holding two keys that takes two more calls. *)
Lemma cache_append_only_witness :
  index (ReceivingRatchet.keys More.twoKeys) 0 = Some (cipherKeyAt Sample.root 0) /\
  index (ReceivingRatchet.keys
           (exec_all Sample.info More.twoKeys
              [call_getKey 3; call_decrypt Sample.hello 0])) 0 =
    Some (cipherKeyAt Sample.root 0).
Proof.
  split; [reflexivity|].
  apply (proj2 (cache_append_only Sample.info More.twoKeys
                  [call_getKey 3; call_decrypt Sample.hello 0])).
  reflexivity.
Defined.

(** X4 at a fresh chain asked for counter 3, read at index 2. *)
Lemma chain_determined_by_counter_witness :
  0 <= 2 < ReceivingRatchet.counter
             (exec_all Sample.info (ReceivingRatchet.new Sample.root) [call_getKey 3]) /\
  index (ReceivingRatchet.keys
           (exec_all Sample.info (ReceivingRatchet.new Sample.root) [call_getKey 3])) 2 =
    Some (cipherKeyAt Sample.root 2).
Proof.
  assert (H : 0 <= 2 < ReceivingRatchet.counter
                (exec_all Sample.info (ReceivingRatchet.new Sample.root)
                   [call_getKey 3]))
    by (split; [apply Z.leb_le|apply Z.ltb_lt]; reflexivity).
  split; [exact H|].
  pose proof (chain_determined_by_counter Sample.info Sample.root [call_getKey 3])
    as Hinv.
  cbv zeta in Hinv. destruct Hinv as (_ & _ & _ & Hkeys).
  exact (Hkeys 2 H).
Defined.

(** X6 at a receiving chain asked for counter 1 and a sending chain after two
    encrypts. *)
Lemma same_counter_same_engine_witness :
  ReceivingRatchet.counter
    (exec_all Sample.info (ReceivingRatchet.new Sample.root) [call_getKey 1]) =
    Z.of_nat (List.length [[x00]; [x01]]) /\
  ReceivingRatchet.base
    (exec_all Sample.info (ReceivingRatchet.new Sample.root) [call_getKey 1]) =
    encrypt_all Sample.info (SendingRatchet.new Sample.root) [[x00]; [x01]].
Proof.
  split; [reflexivity|].
  apply (same_counter_same_engine Sample.info Sample.root [call_getKey 1]
           [[x00]; [x01]]).
  reflexivity.
Defined.

(** X7 at two chains that have each encrypted one, different, message. *)
Lemma encrypt_ignores_earlier_messages_witness :
  List.length [[x00]] = List.length [Sample.hello] /\
  SendingRatchet.encrypt Sample.info
    (encrypt_all Sample.info (SendingRatchet.new Sample.root) [[x00]]) Sample.hello =
  SendingRatchet.encrypt Sample.info
    (encrypt_all Sample.info (SendingRatchet.new Sample.root) [Sample.hello])
    Sample.hello.
Proof.
  split; [reflexivity|].
  apply (encrypt_ignores_earlier_messages Sample.info Sample.root
           [[x00]] [Sample.hello] Sample.hello).
  reflexivity.
Defined.

(** X9 at a chain asked for counter 3 and then for counter -1. *)
Lemma getKey_undefined_iff_negative_witness :
  -1 < 0 /\
  ReceivingRatchet.getKey
    (exec_all Sample.info (ReceivingRatchet.new Sample.root) [call_getKey 3]) (-1) =
  (None, exec_all Sample.info (ReceivingRatchet.new Sample.root) [call_getKey 3]).
Proof.
  split; [reflexivity|].
  apply (proj2 (getKey_undefined_iff_negative Sample.info Sample.root
                  [call_getKey 3] (-1))).
  reflexivity.
Defined.

(** X10 at the two identities of the sample point. *)
Lemma isEqual_equivalence_witness :
  ECPublicKey.isEqual Sample.identity (ECPublicKey.instance More.signatureIdentity) = true /\
  ECPublicKey.isEqual More.signatureIdentity (ECPublicKey.instance Sample.identity) = true /\
  ECPublicKey.isEqual Sample.identity (ECPublicKey.instance Sample.identity) = true.
Proof.
  assert (H1 : ECPublicKey.isEqual Sample.identity
                 (ECPublicKey.instance More.signatureIdentity) = true) by reflexivity.
  assert (H2 : ECPublicKey.isEqual More.signatureIdentity
                 (ECPublicKey.instance Sample.identity) = true) by reflexivity.
  split; [exact H1|]. split; [exact H2|].
  exact (proj2 (proj2 (isEqual_equivalence Sample.identity More.signatureIdentity
                         Sample.identity)) H1 H2).
Defined.

(** X11 at the sample point as a key-agreement and as a signature key. *)
Lemma created_id_is_thumbprint_witness :
  ECPublicKey.create Sample.ecdhPublic = resolve Sample.identity /\
  ECPublicKey.create Sample.ecdsaPublic = resolve More.signatureIdentity /\
  ECPublicKey.isEqual Sample.identity (ECPublicKey.instance More.signatureIdentity) = true /\
  ECPublicKey.id Sample.identity = ECPublicKey.id More.signatureIdentity.
Proof.
  assert (H1 : ECPublicKey.create Sample.ecdhPublic = resolve Sample.identity)
    by reflexivity.
  assert (H2 : ECPublicKey.create Sample.ecdsaPublic = resolve More.signatureIdentity)
    by reflexivity.
  assert (H3 : ECPublicKey.isEqual Sample.identity
                 (ECPublicKey.instance More.signatureIdentity) = true) by reflexivity.
  split; [exact H1|]. split; [exact H2|]. split; [exact H3|].
  exact (proj2 (proj2 (created_id_is_thumbprint Sample.ecdhPublic Sample.ecdsaPublic
                         Sample.identity More.signatureIdentity H1 H2)) H3).
Defined.

(** X12 at a public ECDH key with no point to export. *)
Lemma create_outcomes_witness :
  supportedAlgorithm More.sealedPublic = true /\
  type More.sealedPublic = public /\
  subtle.exportKey "jwk" More.sealedPublic = throw (DOMException "InvalidAccessError") /\
  ECPublicKey.create More.sealedPublic = throw (DOMException "InvalidAccessError").
Proof.
  split; [reflexivity|]. split; [reflexivity|]. split; [reflexivity|].
  apply (proj2 (proj2 (create_outcomes More.sealedPublic))); reflexivity.
Defined.

(** X13 at the sample point imported as a signature key. *)
Lemma importKey_then_serialize_witness :
  ECPublicKey.importKey "P-256" Sample.point ECDSA = resolve More.signatureIdentity /\
  ECPublicKey.serialize More.signatureIdentity = Sample.point.
Proof.
  split; [reflexivity|].
  apply (proj1 (importKey_then_serialize
                  (P := Sample.provider) (C := Sample.codec) (E := Sample.engine)
                  "P-256" sample_base64url sample_import_export
                  Sample.point ECDSA) More.signatureIdentity).
  reflexivity.
Defined.

(** X15 at the engine the flaky provider has stopped: the first signature
    rejects. *)
Lemma click_all_or_nothing_witness :
  @AsyncSecret.sign Flaky.provider
    (SymmetricRatchet.rootKey (ReceivingRatchet.base More.stopped)) [x01] =
    throw (DOMException "OperationError") /\
  @Async.click Flaky.provider (ReceivingRatchet.base More.stopped) =
    (throw (DOMException "OperationError"), ReceivingRatchet.base More.stopped).
Proof.
  split; [reflexivity|].
  pose proof (@click_all_or_nothing Flaky.provider (ReceivingRatchet.base More.stopped))
    as H.
  cbv zeta in H. destruct H as (_ & H & _).
  apply H. reflexivity.
Defined.

(** X16 at a fresh chain over the provider whose HKDF hands out two
    outputs. *)
Lemma encrypt_rejected_step_witness :
  (exists k keys,
     fst (@Async.click Short.provider (SendingRatchet.new Sample.root)) = resolve k /\
     @AsyncSecret.HKDF Short.provider (Some k) 3 None Sample.info = resolve keys /\
     (List.length keys < 3)%nat) /\
  (exists e,
     fst (@Async.encrypt Short.provider Sample.info
            (SendingRatchet.new Sample.root) Sample.hello) = throw e) /\
  SymmetricRatchet.counter
    (snd (@Async.encrypt Short.provider Sample.info
            (SendingRatchet.new Sample.root) Sample.hello)) = 1.
Proof.
  split.
  - eexists. eexists. split; [reflexivity|]. split; [reflexivity|].
    cbn. repeat constructor.
  - destruct (@encrypt_rejected_step Short.provider Sample.info
                (SendingRatchet.new Sample.root) Sample.hello) as (_ & Hstep & Hshort).
    split.
    + eapply Hshort; [reflexivity|reflexivity|cbn; repeat constructor].
    + destruct (Hstep _ eq_refl) as [_ Hc]. exact Hc.
Defined.


(** X18 at the stopped chain, asked for counter 1 again. *)
Lemma getKey_cached_never_rejects_witness :
  1 < ReceivingRatchet.counter More.stopped /\
  @Async.getKey Flaky.provider More.stopped 1 =
    (resolve (index (ReceivingRatchet.keys More.stopped) 1), More.stopped).
Proof.
  split; [reflexivity|].
  apply (proj1 (@getKey_cached_never_rejects Flaky.provider Sample.info
                  More.stopped Sample.hello 1)).
  reflexivity.
Defined.

(** C6 at a fresh sending chain and a fresh receiving chain asked for
    counter 0: both work from the three outputs of the same cipher key. *)
Lemma message_keys_expansion_same_witness :
  let cipherKey := fst (SymmetricRatchet.click (SendingRatchet.new Sample.root)) in
  let out i := repeat x2a i ++ Sample.info ++ cipherKey in
  Secret.HKDF cipherKey 3 None Sample.info = [out 1%nat; out 2%nat; out 3%nat] /\
  fst (ReceivingRatchet.getKey (ReceivingRatchet.new Sample.root) 0) = Some cipherKey /\
  fst (SendingRatchet.encrypt Sample.info (SendingRatchet.new Sample.root) Sample.hello) =
    resolve {| hmacKey := Secret.importHMAC (out 2%nat);
               cipherText := Secret.encrypt (Secret.importAES (out 1%nat)) Sample.hello
                                            (firstn 16 (out 3%nat)) |} /\
  fst (ReceivingRatchet.decrypt Sample.info (ReceivingRatchet.new Sample.root)
         Sample.sealed 0) =
    (cipherText <- await Secret.decrypt (Secret.importAES (out 1%nat)) Sample.sealed
                                        (firstn 16 (out 3%nat)) ;;
     resolve {| hmacKey := Secret.importHMAC (out 2%nat); cipherText := cipherText |}).
Proof.
  intros cipherKey out.
  assert (Hout : Secret.HKDF cipherKey 3 None Sample.info =
                 [out 1%nat; out 2%nat; out 3%nat]) by reflexivity.
  assert (Hkey : fst (ReceivingRatchet.getKey (ReceivingRatchet.new Sample.root) 0) =
                 Some cipherKey) by reflexivity.
  pose proof (message_keys_expansion_same Sample.info
                (SendingRatchet.new Sample.root) (ReceivingRatchet.new Sample.root)
                Sample.hello 0 Sample.root [] [])
    as (_ & _ & Henc & _).
  pose proof (message_keys_expansion_same Sample.info
                (SendingRatchet.new Sample.root) (ReceivingRatchet.new Sample.root)
                Sample.sealed 0 Sample.root [] [])
    as (_ & _ & _ & Hdec & _).
  split; [exact Hout|]. split; [exact Hkey|].
  split.
  - exact (Henc _ _ _ _ Hout).
  - exact (Hdec _ _ _ _ _ Hkey Hout).
Defined.

End MoreSamples.
